(** * ECMWF data downloader: listing parser and download orchestrator

    A shallow embedding of [src/main.py] (class [ECMWFDownloader]) and the
    properties of its listing-and-transfer engine.

    Conventions of the embedding.
    - A Python [str] is a [string]; its characters are the code points
      below 256.  Within that alphabet the regular-expression class [\d]
      is the ten ASCII digits and [\s] (also the set removed by
      [str.strip()]) is [is_space] below.
    - A Python [int] is a [Z]; a Python [float] is the rational number it
      denotes, a [Q] whose denominator is a power of two; the two places
      where CPython rounds or overflows ([int / int] and the conversion of
      an [int] for the format code [f]) are written out.
    - Code that raises returns an [outcome]; code that touches the
      console, the network or the file system threads a [world]. *)

From Stdlib Require Import Ascii String QArith.
From stdpp Require Import gmap strings list pretty.

Open Scope string_scope.
Open Scope Z_scope.

(** ** Python strings *)

Module PyStr.

Definition is_digit (c : ascii) : bool :=
  match Ascii.is_nat c with Some _ => true | None => false end.

(** [Py_UNICODE_ISSPACE] restricted to code points below 256. *)
Definition is_space (c : ascii) : bool :=
  match c with
  | "009" | "010" | "011" | "012" | "013"
  | "028" | "029" | "030" | "031" | " " | "133" | "160" => true
  | _ => false
  end%char.

(** [s.endswith(suf)]: some suffix of [s] is [suf]. *)
Fixpoint endswith (s suf : string) : bool :=
  if String.eqb s suf then true
  else match s with
       | EmptyString => false
       | String _ s' => endswith s' suf
       end.

Fixpoint startswith (pre s : string) : bool :=
  match pre, s with
  | EmptyString, _ => true
  | String a pre', String b s' => Ascii.eqb a b && startswith pre' s'
  | String _ _, EmptyString => false
  end.

Fixpoint lstrip (s : string) : string :=
  match s with
  | String c s' => if is_space c then lstrip s' else s
  | EmptyString => EmptyString
  end.

Fixpoint rstrip (s : string) : string :=
  match s with
  | EmptyString => EmptyString
  | String c s' =>
      match rstrip s' with
      | EmptyString => if is_space c then EmptyString else String c EmptyString
      | r => String c r
      end
  end.

(** [s.strip()] *)
Definition strip (s : string) : string := rstrip (lstrip s).

(** The longest prefix of characters satisfying [p], and the rest. *)
Fixpoint span (p : ascii → bool) (s : string) : string * string :=
  match s with
  | String c s' =>
      if p c then let '(a, b) := span p s' in (String c a, b)
      else (EmptyString, s)
  | EmptyString => (EmptyString, EmptyString)
  end.

Definition all_digits (s : string) : bool :=
  forallb is_digit (list_ascii_of_string s).

Definition digit_value (c : ascii) : Z :=
  match Ascii.is_nat c with Some n => Z.of_nat n | None => 0 end.

(** [int(s)] for a string of ASCII digits. *)
Definition int_of_digits (s : string) : Z :=
  fold_left (λ acc c, 10 * acc + digit_value c) (list_ascii_of_string s) 0.

(** ASCII lower-casing, for matching under [re.IGNORECASE]. *)
Definition lower (c : ascii) : ascii :=
  let n := nat_of_ascii c in
  if ((65 <=? n)%nat && (n <=? 90)%nat)%bool then ascii_of_nat (n + 32) else c.

Fixpoint startswith_ci (pre s : string) : bool :=
  match pre, s with
  | EmptyString, _ => true
  | String a pre', String b s' =>
      Ascii.eqb (lower a) (lower b) && startswith_ci pre' s'
  | String _ _, EmptyString => false
  end.

Fixpoint drop (n : nat) (s : string) : string :=
  match n, s with
  | O, _ => s
  | S n', String _ s' => drop n' s'
  | S _, EmptyString => EmptyString
  end.

End PyStr.

(** ** Exceptions and outcomes *)

Inductive exn :=
  | ValueError (msg : string)
  | OverflowError
  | OSError
  | UnicodeDecodeError
  | TimeoutError
  | ClientError
  | ClientResponseError (status : Z)
  | CancelledError.

(** [isinstance(e, Exception)]: [asyncio.CancelledError] derives from
    [BaseException] only. *)
Definition is_Exception (e : exn) : bool :=
  match e with CancelledError => false | _ => true end.

(** [isinstance(e, aiohttp.ClientError)] *)
Definition is_ClientError (e : exn) : bool :=
  match e with ClientError | ClientResponseError _ => true | _ => false end.

Inductive outcome (A : Type) :=
  | Returned (a : A)
  | Raised (e : exn).
Arguments Returned {A} a.
Arguments Raised {A} e.

(** ** The listing parser: kind of a file *)

Inductive FileType := GRIB | NetCDF | Index | Unknown.

(** [_get_file_type] *)
Definition _get_file_type (filename : string) : FileType :=
  if PyStr.endswith filename ".grib" || PyStr.endswith filename ".grib2" then GRIB
  else if PyStr.endswith filename ".nc" || PyStr.endswith filename ".netcdf" then NetCDF
  else if PyStr.endswith filename ".idx" then Index
  else Unknown.

(** ** The listing parser: size of a file *)

(** [size_bytes] starts as an [int] and becomes a [float] at the first
    [size_bytes /= 1024]. *)
Inductive pynum :=
  | PyInt (n : Z)
  | PyFloat (q : Q).

(** The integer nearest to [a / d] for [0 < d], ties to the even one. *)
Definition round_half_even_div (a d : Z) : Z :=
  let q := a / d in
  let r := a mod d in
  if 2 * r <? d then q
  else if d <? 2 * r then q + 1
  else if Z.even q then q else q + 1.

(** The integer denoted by the double nearest to [n] (53 significant
    bits, ties to even), for [0 <= n]. *)
Definition round_to_double (n : Z) : Z :=
  let bits := Z.log2 n + 1 in
  if bits <=? 53 then n
  else let sh := bits - 53 in round_half_even_div n (2 ^ sh) * 2 ^ sh.

(** [float(n)]: raises [OverflowError] beyond the range of a double. *)
Definition float_of_int (n : Z) : outcome Q :=
  let m := round_to_double (Z.abs n) in
  if 2 ^ 1024 <=? m then Raised OverflowError
  else Returned (inject_Z (Z.sgn n * m)).

(** [x < 1024] *)
Definition num_lt_1024 (x : pynum) : bool :=
  match x with
  | PyInt n => n <? 1024
  | PyFloat q => Qnum q <? 1024 * Zpos (Qden q)
  end.

(** [x / 1024]: true division.  On an [int] the quotient is rounded to
    the nearest double and [OverflowError] is raised when it is out of
    range; on a [float] dividing by a power of two is exact (the loop
    only divides values of magnitude at least 1024, so nothing
    underflows). *)
Definition truediv_1024 (x : pynum) : outcome pynum :=
  match x with
  | PyInt n =>
      let m := round_to_double (Z.abs n) in
      if 2 ^ 1034 <=? m then Raised OverflowError
      else Returned (PyFloat (inject_Z (Z.sgn n * m) / 1024))
  | PyFloat q => Returned (PyFloat (q / 1024))
  end.

(** [f"{q:.1f}"] for a double [q]: the exact value rounded to one decimal
    place, ties to even. *)
Definition format_1f_Q (q : Q) : string :=
  let t := round_half_even_div (Z.abs (Qnum q) * 10) (Zpos (Qden q)) in
  (if Qnum q <? 0 then "-" else EmptyString) +:+ pretty (t / 10) +:+ "." +:+ pretty (t mod 10).

(** [f"{x:.1f}"]; an [int] is converted with [float(x)] first. *)
Definition format_1f (x : pynum) : outcome string :=
  match x with
  | PyInt n =>
      match float_of_int n with
      | Returned q => Returned (format_1f_Q q)
      | Raised e => Raised e
      end
  | PyFloat q => Returned (format_1f_Q q)
  end.

(** The [for unit in ...] loop of [_format_file_size] and the statement
    after it. *)
Fixpoint format_units (units : list string) (size_bytes : pynum) : outcome string :=
  match units with
  | unit :: rest =>
      if num_lt_1024 size_bytes then
        match format_1f size_bytes with
        | Returned s => Returned (s +:+ " " +:+ unit)
        | Raised e => Raised e
        end
      else
        match truediv_1024 size_bytes with
        | Returned v => format_units rest v
        | Raised e => Raised e
        end
  | [] =>
      match format_1f size_bytes with
      | Returned s => Returned (s +:+ " TB")
      | Raised e => Raised e
      end
  end.

(** [_format_file_size] *)
Definition _format_file_size (size_bytes : Z) : outcome string :=
  format_units ["B"; "KB"; "MB"; "GB"] (PyInt size_bytes).

(** ** The listing parser: forecast hour *)

(** [re.search(r'-(\d+)h-', filename)]: the match attempted at the start
    of [s].  [\d+] is greedy and can only be followed by [h], so the
    digits taken are the whole run. *)
Definition match_hour_at (s : string) : option string :=
  match s with
  | String "-" rest =>
      let '(ds, rest') := PyStr.span PyStr.is_digit rest in
      if negb (String.eqb ds EmptyString) && PyStr.startswith "h-" rest' then Some ds else None
  | _ => None
  end.

(** The leftmost match, as [re.search] finds it; the result is group 1. *)
Fixpoint search_hour (s : string) : option string :=
  match match_hour_at s with
  | Some ds => Some ds
  | None =>
      match s with
      | String _ s' => search_hour s'
      | EmptyString => None
      end
  end.

(** [hour_match.group(1) if hour_match else "unknown"] *)
Definition forecast_hour_of (filename : string) : string :=
  match search_hour filename with
  | Some ds => ds
  | None => "unknown"
  end.

(** ** The listing parser: scanning the page *)

(** One element of [re.findall(file_pattern, html_content, re.IGNORECASE)]:
    the five groups. *)
Record file_match := {
  m_href : string;
  m_filename : string;
  m_date_time : string;
  m_size : string;
  m_file_id : string
}.

(** The double quote, as a character and as a string. *)
Definition dquote : ascii := "034"%char.
Definition dq : string := String dquote EmptyString.

Definition lit_ci (l s : string) : option string :=
  if PyStr.startswith_ci l s then Some (PyStr.drop (String.length l) s) else None.

Definition many1 (p : ascii → bool) (s : string) : option (string * string) :=
  let '(a, b) := PyStr.span p s in
  if String.eqb a EmptyString then None else Some (a, b).

(** [\d{n}] *)
Fixpoint digits_n (n : nat) (s : string) : option (string * string) :=
  match n with
  | O => Some (EmptyString, s)
  | S n' =>
      match s with
      | String c s' =>
          if PyStr.is_digit c then
            match digits_n n' s' with
            | Some (a, b) => Some (String c a, b)
            | None => None
            end
          else None
      | EmptyString => None
      end
  end.

Definition lower_string (s : string) : string :=
  string_of_list_ascii (map PyStr.lower (list_ascii_of_string s)).

(** The first group of [file_pattern] (any characters but the double
    quote, a dot, then [grib2?|index|nc]) on the whole of [href],
    ignoring case: a non-empty stem, a dot and one of the extensions. *)
Definition href_admitted (href : string) : bool :=
  existsb (λ ext,
             PyStr.endswith (lower_string href) ("." +:+ ext)
             && (String.length ext + 1 <? String.length href)%nat)
          ["grib"; "grib2"; "index"; "nc"].

(** [(\d{2}-\d{2}-\d{4}\s+\d{2}:\d{2})] *)
Definition match_date_time (s : string) : option (string * string) :=
  '(d, s) ← digits_n 2 s;
  s ← lit_ci "-" s;
  '(mo, s) ← digits_n 2 s;
  s ← lit_ci "-" s;
  '(y, s) ← digits_n 4 s;
  '(sp, s) ← many1 PyStr.is_space s;
  '(h, s) ← digits_n 2 s;
  s ← lit_ci ":" s;
  '(mi, s) ← digits_n 2 s;
  Some (d +:+ "-" +:+ mo +:+ "-" +:+ y +:+ sp +:+ h +:+ ":" +:+ mi, s).

(** The match of [file_pattern] attempted at the start of [s]: the groups
    and what follows the match.  Every quantifier of the pattern is
    followed by something it cannot itself match, so a match, when there
    is one, is the greedy one. *)
Definition match_file_at (s : string) : option (file_match * string) :=
  s ← lit_ci ("<a href=" +:+ dq) s;
  let '(href, s) := PyStr.span (λ c, negb (Ascii.eqb c dquote)) s in
  s ← lit_ci dq s;
  if negb (href_admitted href) then None else
  let '(_, s) := PyStr.span (λ c, negb (Ascii.eqb c ">")) s in
  s ← lit_ci ">" s;
  '(filename, s) ← many1 (λ c, negb (Ascii.eqb c "<")) s;
  s ← lit_ci "</a>" s;
  '(_, s) ← many1 PyStr.is_space s;
  '(date_time, s) ← match_date_time s;
  '(_, s) ← many1 PyStr.is_space s;
  '(size, s) ← many1 PyStr.is_digit s;
  '(_, s) ← many1 PyStr.is_space s;
  '(file_id, s) ← many1 PyStr.is_digit s;
  Some ({| m_href := href; m_filename := filename; m_date_time := date_time;
           m_size := size; m_file_id := file_id |}, s).

(** [re.findall]: matches are tried from left to right, and the scan
    resumes at the end of each match; [skip] counts the characters still
    covered by the last match. *)
Fixpoint findall_from (skip : nat) (s : string) : list file_match :=
  match s with
  | EmptyString => []
  | String _ s' =>
      match skip with
      | S k => findall_from k s'
      | O =>
          match match_file_at s with
          | Some (t, rest) =>
              t :: findall_from (String.length s - String.length rest - 1) s'
          | None => findall_from 0 s'
          end
      end
  end.

Definition findall_file_pattern (html_content : string) : list file_match :=
  findall_from 0 html_content.

(** ** The listing parser: records *)

(** [urljoin(base, ref)], kept symbolic: no property below looks inside
    a resolved address. *)
Inductive Url := urljoin (base ref : string).

(** The dictionary built for one file by [_parse_data_files]; the fields
    are its keys. *)
Record FileInfo := {
  fi_filename : string;
  fi_url : Url;
  fi_date : string;
  fi_forecast_time : string;
  fi_model : string;
  fi_resolution : string;
  fi_data_type : string;
  fi_forecast_hour : string;
  fi_size : string;
  fi_raw_size : Z;
  fi_type : FileType;
  fi_modified : string
}.

(** The five addressing fields of a listing. *)
Record Address := {
  a_date : string;
  a_forecast_time : string;
  a_model : string;
  a_resolution : string;
  a_data_type : string
}.

Definition address_path (a : Address) : string :=
  a_date a +:+ "/" +:+ a_forecast_time a +:+ "/" +:+ a_model a +:+ "/"
  +:+ a_resolution a +:+ "/" +:+ a_data_type a +:+ "/".

(** The body of the [for ... in matches] loop: [file_info] for one match.
    Building it raises when [_format_file_size] does. *)
Definition file_info_of (base_url : string) (a : Address) (m : file_match)
  : outcome FileInfo :=
  let filename := m_filename m in
  let forecast_hour := forecast_hour_of filename in
  match _format_file_size (PyStr.int_of_digits (m_size m)) with
  | Raised e => Raised e
  | Returned size =>
      Returned {|
        fi_filename := PyStr.strip filename;
        fi_url := urljoin base_url (m_href m);
        fi_date := a_date a;
        fi_forecast_time := a_forecast_time a;
        fi_model := a_model a;
        fi_resolution := a_resolution a;
        fi_data_type := a_data_type a;
        fi_forecast_hour := forecast_hour;
        fi_size := size;
        fi_raw_size := PyStr.int_of_digits (m_size m);
        fi_type := _get_file_type filename;
        fi_modified := m_date_time m
      |}
  end.

Fixpoint parse_matches (base_url : string) (a : Address) (matches : list file_match)
  : outcome (list FileInfo) :=
  match matches with
  | [] => Returned []
  | m :: rest =>
      match file_info_of base_url a m with
      | Raised e => Raised e
      | Returned file_info =>
          match parse_matches base_url a rest with
          | Raised e => Raised e
          | Returned files => Returned (file_info :: files)
          end
      end
  end.

(** [_parse_data_files]; [config_base_url] is [self.config.base_url]. *)
Definition _parse_data_files (config_base_url html_content : string) (a : Address)
  : outcome (list FileInfo) :=
  let matches := findall_file_pattern html_content in
  let base_url := config_base_url +:+ address_path a in
  parse_matches base_url a matches.

(** ** Date validation *)

(** [datetime.strptime(date_str, "%Y%m%d")] turns the format into the
    regular expression
    [(?P<Y>\d\d\d\d)(?P<m>1[0-2]|0[1-9]|[1-9])(?P<d>3[0-1]|[1-2]\d|0[1-9]|[1-9]| [1-9])],
    matches it at the start of the string, rejects unconverted trailing
    data and then builds the date.  The alternatives are tried in the
    order written. *)
Definition in_range (lo hi c : ascii) : bool :=
  ((nat_of_ascii lo <=? nat_of_ascii c)%nat && (nat_of_ascii c <=? nat_of_ascii hi)%nat)%bool.

Definition cls1 (p : ascii → bool) (s : string) : option (string * string) :=
  match s with
  | String c s' => if p c then Some (String c EmptyString, s') else None
  | EmptyString => None
  end.

Definition cls2 (p1 p2 : ascii → bool) (s : string) : option (string * string) :=
  match s with
  | String c1 (String c2 s') =>
      if p1 c1 && p2 c2 then Some (String c1 (String c2 EmptyString), s') else None
  | _ => None
  end.

Definition month_alts : list (string → option (string * string)) :=
  [ cls2 (Ascii.eqb "1") (in_range "0" "2");
    cls2 (Ascii.eqb "0") (in_range "1" "9");
    cls1 (in_range "1" "9") ].

Definition day_alts : list (string → option (string * string)) :=
  [ cls2 (Ascii.eqb "3") (in_range "0" "1");
    cls2 (in_range "1" "2") PyStr.is_digit;
    cls2 (Ascii.eqb "0") (in_range "1" "9");
    cls1 (in_range "1" "9");
    cls2 (Ascii.eqb " ") (in_range "1" "9") ].

(** The first alternative, in order, after which the rest of the pattern
    [k] matches too. *)
Fixpoint first_alt {A} (alts : list (string → option (string * string)))
    (s : string) (k : string → string → option A) : option A :=
  match alts with
  | [] => None
  | alt :: rest =>
      match alt s with
      | Some (m, s') =>
          match k m s' with
          | Some r => Some r
          | None => first_alt rest s k
          end
      | None => first_alt rest s k
      end
  end.

(** [format_regex.match(data_string)]: the groups [Y], [m], [d] and the
    text after the match. *)
Definition strptime_match (data_string : string)
  : option (string * string * string * string) :=
  '(Y, s) ← digits_n 4 data_string;
  first_alt month_alts s (λ m s,
    first_alt day_alts s (λ d s, Some (Y, m, d, s))).

Definition is_leap (year : Z) : bool :=
  (year mod 4 =? 0) && (negb (year mod 100 =? 0) || (year mod 400 =? 0)).

Definition days_in_month (year month : Z) : Z :=
  if month =? 2 then (if is_leap year then 29 else 28)
  else if (month =? 4) || (month =? 6) || (month =? 9) || (month =? 11) then 30
  else 31.

(** [datetime.strptime(date_str, VALID_DATE_FORMAT)]: the date, or the
    message of the [ValueError] it raises. *)
Definition strptime_Ymd (date_str : string) : string + (Z * Z * Z) :=
  match strptime_match date_str with
  | None => inl "time data does not match format"
  | Some (Y, m, d, rest) =>
      if negb (String.eqb rest EmptyString) then inl "unconverted data remains"
      else
        let year := PyStr.int_of_digits Y in
        let month := PyStr.int_of_digits m in
        let day := PyStr.int_of_digits (PyStr.strip d) in
        if year <? 1 then inl "year is out of range"
        else if days_in_month year month <? day then inl "day is out of range for month"
        else inr (year, month, day)
  end.

(** [validate_date_format] *)
Definition validate_date_format (date_str : string) : bool :=
  match strptime_Ymd date_str with
  | inr _ => true
  | inl _ => false
  end.

(** ** The world: console, network and file system *)

Definition Path := list string.

Inductive console_msg :=
  | NoDataAvailable (a : Address)
  | ErrorAccessing (url : Url) (e : exn)
  | Downloaded (filename : string)
  | FailedToDownload (filename : string) (e : exn).

Inductive event :=
  | Console (msg : console_msg)
  | HttpGet (url : Url)
  | Mkdir (p : Path)
  | OpenWb (p : Path)
  | FileWrite (p : Path) (n : nat)
  | Unlink (p : Path)
  | ProgressAdd (task_id : nat) (filename : string)
  | ProgressTotal (task_id : nat) (total : Z)
  | ProgressCompleted (task_id : nat) (completed : Z)
  | ProgressRemove (task_id : nat).

Record world := {
  files : gmap Path (list Byte.byte);
  dirs : gset Path;
  log : list event
}.

Definition emit (ev : event) (w : world) : world :=
  {| files := files w; dirs := dirs w; log := (log w ++ [ev])%list |}.

(** A computation that may raise and that changes the world. *)
Definition M (A : Type) : Type := world → outcome A * world.

Definition ret {A} (a : A) : M A := λ w, (Returned a, w).
Definition raise {A} (e : exn) : M A := λ w, (Raised e, w).
Definition bind {A B} (m : M A) (k : A → M B) : M B :=
  λ w, match m w with
       | (Returned a, w') => k a w'
       | (Raised e, w') => (Raised e, w')
       end.
Definition tell (ev : event) : M unit := λ w, (Returned tt, emit ev w).
Definition lift {A} (o : outcome A) : M A := λ w, (o, w).

(** [try: body  except <class> as e: handler e] *)
Definition try_except {A} (body : M A) (catches : exn → bool) (handler : exn → M A) : M A :=
  λ w, match body w with
       | (Raised e, w') => if catches e then handler e w' else (Raised e, w')
       | r => r
       end.

#[global] Instance M_ret : MRet M := @ret.
#[global] Instance M_bind : MBind M := λ A B k m, bind m k.

Record DownloadConfig := {
  base_url : string;
  output_dir : Path;
  max_concurrent_downloads : Z;
  timeout_seconds : Z;
  chunk_size : Z
}.

(** ** Listing *)

(** What the transport does for one listing fetch: [session.get] raises,
    or answers with a status and a body whose decoding
    ([response.text()]) may raise. *)
Record listing_response := {
  l_status : Z;
  l_text : outcome string
}.

Definition session_get {R} (url : Url) (answer : outcome R) : M R :=
  tell (HttpGet url);; lift answer.

(** [response.raise_for_status()]: aiohttp raises for a status of 400 and
    above. *)
Definition raise_for_status (status : Z) : M unit :=
  if 400 <=? status then raise (ClientResponseError status) else ret tt.

(** [list_available_files] *)
Definition list_available_files (config : DownloadConfig) (a : Address)
    (transport : outcome listing_response) : M (list FileInfo) :=
  if negb (validate_date_format (a_date a)) then
    raise (ValueError ("Invalid date format: " +:+ a_date a +:+ ". Expected YYYYMMDD."))
  else
    let url := urljoin (base_url config) (address_path a) in
    try_except
      (response ← session_get url transport;
       if l_status response =? 404 then
         tell (Console (NoDataAvailable a));;
         ret []
       else
         raise_for_status (l_status response);;
         content ← lift (l_text response);
         files ← lift (_parse_data_files (base_url config) content a);
         ret files)
      is_ClientError
      (λ e, tell (Console (ErrorAccessing url e));; ret []).

(** ** Transfer of one file *)

(** What the environment does during one call of [download_file].  The
    body of the response is the sequence of things
    [response.content.iter_chunked] does: it yields a chunk, whose
    [f.write] may raise, or it raises itself (connection lost, time-out);
    the end of the list is the end of the stream. *)
Inductive stream_event :=
  | Chunk (data : list Byte.byte) (write_raises : option exn)
  | StreamRaises (e : exn).

Record response := {
  r_status : Z;
  r_content_length : option string;
  r_body : list stream_event
}.

Record attempt_env := {
  e_mkdir : option exn;
  e_get : outcome response;
  e_open : option exn
}.

(** [int(s)] for a header value: surrounding white space, an optional
    sign, decimal digits with single underscores between them. *)
Fixpoint digits_underscores (prev_digit : bool) (s : string) : option (list ascii) :=
  match s with
  | EmptyString => if prev_digit then Some [] else None
  | String c s' =>
      if PyStr.is_digit c then cons c <$> digits_underscores true s'
      else if Ascii.eqb c "_" && prev_digit then digits_underscores false s'
      else None
  end.

Definition py_int (s : string) : outcome Z :=
  let s := PyStr.strip s in
  let '(neg, body) :=
    match s with
    | String "-" r => (true, r)
    | String "+" r => (false, r)
    | _ => (false, s)
    end in
  match body, digits_underscores false body with
  | String _ _, Some ds =>
      let v := PyStr.int_of_digits (string_of_list_ascii ds) in
      Returned (if neg then - v else v)
  | _, _ => Raised (ValueError "invalid literal for int() with base 10")
  end.

(** [int(response.headers.get('content-length', 0))] *)
Definition total_size_of (r : response) : outcome Z :=
  match r_content_length r with
  | None => Returned 0
  | Some v => py_int v
  end.

(** [p.parent] *)
Definition parent (p : Path) : Path := removelast p.

(** The non-empty prefixes of [p]: the directories that
    [p.mkdir(parents=True, exist_ok=True)] makes sure exist. *)
Definition ancestors_and_self (p : Path) : list Path :=
  map (λ n, firstn n p) (seq 1 (length p)).

Definition mkdir_parents (p : Path) (raises : option exn) : M unit :=
  match raises with
  | Some e => raise e
  | None => λ w,
      (Returned tt,
       emit (Mkdir p)
         {| files := files w;
            dirs := dirs w ∪ list_to_set (ancestors_and_self p);
            log := log w |})
  end.

(** [open(p, 'wb')]: creates the file, or empties the one that is there. *)
Definition open_wb (p : Path) (raises : option exn) : M unit :=
  match raises with
  | Some e => raise e
  | None => λ w,
      (Returned tt,
       emit (OpenWb p)
         {| files := <[p := []]> (files w); dirs := dirs w; log := log w |})
  end.

(** [f.write(chunk)] on the file opened at [p]. *)
Definition write_chunk (p : Path) (data : list Byte.byte) (raises : option exn) : M unit :=
  match raises with
  | Some e => raise e
  | None => λ w,
      (Returned tt,
       emit (FileWrite p (length data))
         {| files := <[p := (default [] (files w !! p) ++ data)%list]> (files w);
            dirs := dirs w; log := log w |})
  end.

(** [p.exists()] *)
Definition path_exists (p : Path) : M bool :=
  λ w, (Returned (bool_decide (is_Some (files w !! p)) || bool_decide (p ∈ dirs w)), w).

(** [p.unlink()]: removes a file; raises on anything else. *)
Definition unlink (p : Path) : M unit :=
  λ w, match files w !! p with
       | Some _ =>
           (Returned tt,
            emit (Unlink p)
              {| files := delete p (files w); dirs := dirs w; log := log w |})
       | None => (Raised OSError, w)
       end.

(** The [async for chunk in ...] loop with its running [downloaded]. *)
Fixpoint stream_to_file (body : list stream_event) (output_path : Path)
    (task_id : nat) (total_size downloaded : Z) : M unit :=
  match body with
  | [] => ret tt
  | StreamRaises e :: _ => raise e
  | Chunk chunk write_raises :: rest =>
      write_chunk output_path chunk write_raises;;
      let downloaded := downloaded + Z.of_nat (length chunk) in
      (if 0 <? total_size then tell (ProgressCompleted task_id downloaded) else ret tt);;
      stream_to_file rest output_path task_id total_size downloaded
  end.

Definition output_path_of (config : DownloadConfig) (file_info : FileInfo) : Path :=
  (output_dir config ++ [fi_date file_info; fi_filename file_info])%list.

(** The [try] block of [download_file]. *)
Definition download_file_try (config : DownloadConfig) (file_info : FileInfo)
    (task_id : nat) (env : attempt_env) : M bool :=
  let url := fi_url file_info in
  let filename := fi_filename file_info in
  let output_path := output_path_of config file_info in
  response ← session_get url (e_get env);
  raise_for_status (r_status response);;
  total_size ← lift (total_size_of response);
  (if 0 <? total_size then tell (ProgressTotal task_id total_size) else ret tt);;
  open_wb output_path (e_open env);;
  stream_to_file (r_body response) output_path task_id total_size 0;;
  tell (Console (Downloaded filename));;
  ret true.

(** The [except Exception as e] block of [download_file]. *)
Definition download_file_except (config : DownloadConfig) (file_info : FileInfo)
    (e : exn) : M bool :=
  let filename := fi_filename file_info in
  let output_path := output_path_of config file_info in
  tell (Console (FailedToDownload filename e));;
  ex ← path_exists output_path;
  (if ex : bool then unlink output_path else ret tt);;
  ret false.

(** [download_file] *)
Definition download_file (config : DownloadConfig) (file_info : FileInfo)
    (task_id : nat) (env : attempt_env) : M bool :=
  let output_path := output_path_of config file_info in
  mkdir_parents (parent output_path) (e_mkdir env);;
  try_except
    (download_file_try config file_info task_id env)
    is_Exception
    (download_file_except config file_info).

(** ** Batch transfer *)

Record BatchResult := {
  success : Z;
  failed : Z
}.

(** One task of [asyncio.gather]: waiting for the semaphore, inside the
    [async with semaphore] block, or finished with the value it returned
    or the exception it raised. *)
Inductive task_state :=
  | Pending
  | InFlight (task_id : nat)
  | Done (result : outcome bool).

Record batch := {
  sem : Z;
  tasks : list task_state;
  next_task_id : nat;
  bw : world
}.

(** The scheduler's choices: task [i] acquires the semaphore and enters
    the block, or task [i] runs its transfer to the end and leaves the
    block.  Any waiting task may be the one that acquires, which covers
    the first-come order of [asyncio.Semaphore].  A transfer is run in
    one step, at the moment it finishes: which task holds a permit and
    what an attempt returns do not depend on how the chunks of the
    transfers in flight interleave. *)
Inductive sched_event :=
  | Acquire (i : nat)
  | Complete (i : nat).

(** [max_concurrent or self.config.max_concurrent_downloads] *)
Definition effective_limit (config : DownloadConfig) (max_concurrent : option Z) : Z :=
  match max_concurrent with
  | Some n => if n =? 0 then max_concurrent_downloads config else n
  | None => max_concurrent_downloads config
  end.

(** The state after [asyncio.Semaphore(n)] and the creation of one task
    per record. *)
Definition batch_init (n : Z) (files : list FileInfo) (w : world) : batch :=
  {| sem := n; tasks := map (λ _, Pending) files; next_task_id := 0; bw := w |}.

(** The body of [download_with_progress] after [add_task]:
    [progress.remove_task] runs only when [download_file] returns. *)
Definition download_with_progress_body (config : DownloadConfig)
    (file_info : FileInfo) (task_id : nat) (env : attempt_env) : M bool :=
  success ← download_file config file_info task_id env;
  tell (ProgressRemove task_id);;
  ret success.

(** One step of the batch; [None] when the step is not enabled.
    [async with semaphore] takes a permit on entry and gives it back on
    exit, also when the body raises. *)
Definition step (config : DownloadConfig) (files : list FileInfo)
    (envs : nat → attempt_env) (ev : sched_event) (b : batch) : option batch :=
  match ev with
  | Acquire i =>
      match tasks b !! i, files !! i with
      | Some Pending, Some file_info =>
          if 0 <? sem b then
            Some {| sem := sem b - 1;
                    tasks := <[i := InFlight (next_task_id b)]> (tasks b);
                    next_task_id := S (next_task_id b);
                    bw := emit (ProgressAdd (next_task_id b) (fi_filename file_info)) (bw b) |}
          else None
      | _, _ => None
      end
  | Complete i =>
      match tasks b !! i, files !! i with
      | Some (InFlight task_id), Some file_info =>
          let '(r, w') :=
            download_with_progress_body config file_info task_id (envs i) (bw b) in
          Some {| sem := sem b + 1;
                  tasks := <[i := Done r]> (tasks b);
                  next_task_id := next_task_id b;
                  bw := w' |}
      | _, _ => None
      end
  end.

Fixpoint run (config : DownloadConfig) (files : list FileInfo)
    (envs : nat → attempt_env) (sched : list sched_event) (b : batch) : option batch :=
  match sched with
  | [] => Some b
  | ev :: rest =>
      match step config files envs ev b with
      | Some b' => run config files envs rest b'
      | None => None
      end
  end.

Definition is_done (t : task_state) : bool :=
  match t with Done _ => true | _ => false end.

Definition is_in_flight (t : task_state) : bool :=
  match t with InFlight _ => true | _ => false end.

Definition is_pending (t : task_state) : bool :=
  match t with Pending => true | _ => false end.

Fixpoint count_if {A} (p : A → bool) (l : list A) : nat :=
  match l with
  | [] => 0
  | x :: l' => (if p x then 1 else 0) + count_if p l'
  end.

(** The number of transfers inside the [async with semaphore] block. *)
Definition in_flight (b : batch) : nat := count_if is_in_flight (tasks b).

Definition all_done (b : batch) : bool := forallb is_done (tasks b).

(** [isinstance(result, bool) and result] *)
Definition counts_as_success (t : task_state) : bool :=
  match t with Done (Returned true) => true | _ => false end.

(** The [for result in download_results] loop. *)
Fixpoint tally (results : list task_state) (acc : BatchResult) : BatchResult :=
  match results with
  | [] => acc
  | result :: rest =>
      tally rest
        (if counts_as_success result
         then {| success := success acc + 1; failed := failed acc |}
         else {| success := success acc; failed := failed acc + 1 |})
  end.

(** [download_files] along the schedule [sched].  [None] means that
    [sched] is not a complete execution of the batch: it asks for a step
    that is not enabled, or it stops before every task has finished. *)
Definition download_files (config : DownloadConfig) (files : list FileInfo)
    (max_concurrent : option Z) (envs : nat → attempt_env)
    (sched : list sched_event) (w : world)
  : option (outcome BatchResult * world) :=
  match files with
  | [] =>
      match sched with
      | [] => Some (Returned {| success := 0; failed := 0 |}, w)
      | _ => None
      end
  | _ =>
      let n := effective_limit config max_concurrent in
      if n <? 0 then
        match sched with
        | [] => Some (Raised (ValueError "Semaphore initial value must be >= 0"), w)
        | _ => None
        end
      else
        match run config files envs sched (batch_init n files w) with
        | Some b =>
            if all_done b
            then Some (Returned (tally (tasks b) {| success := 0; failed := 0 |}), bw b)
            else None
        | None => None
        end
  end.

(** ** Specification vocabulary: names, sizes and dates *)

(** The filename suffix the specification speaks of: the text after the
    last dot, if there is a dot. *)
Fixpoint suffix_of (filename : string) : option string :=
  match filename with
  | EmptyString => None
  | String c rest =>
      match suffix_of rest with
      | Some e => Some e
      | None => if Ascii.eqb c "." then Some rest else None
      end
  end.

(** The precedence table of the specification. *)
Definition kind_of_suffix (suffix : option string) : FileType :=
  match suffix with
  | Some e =>
      if String.eqb e "grib" || String.eqb e "grib2" then GRIB
      else if String.eqb e "nc" || String.eqb e "netcdf" then NetCDF
      else if String.eqb e "idx" then Index
      else Unknown
  | None => Unknown
  end.

(** [name] contains the pattern of the forecast hour: [pre], a hyphen,
    the non-empty digit string [ds], [h-], and [post]. *)
Definition hour_pattern_at (name pre ds post : string) : Prop :=
  name = pre +:+ "-" +:+ ds +:+ "h-" +:+ post
  ∧ ds ≠ EmptyString
  ∧ PyStr.all_digits ds = true.

(** The size formatting as the specification words it: the running value
    is divided by 1024 from unit to unit in exact arithmetic, the first
    unit at which it is below 1024 is selected (TB when there is none),
    and the value is shown with one decimal place (a tie goes to the
    even digit, as [format] does). *)
Definition running_value (n : Z) (k : nat) : Q :=
  Nat.iter k (λ v, v / 1024)%Q (inject_Z n).

Definition unit_names : list string := ["B"; "KB"; "MB"; "GB"; "TB"].

Definition selected_unit (n : Z) : nat :=
  from_option id 4%nat
    (List.find (λ k, num_lt_1024 (PyFloat (running_value n k))) [0; 1; 2; 3]%nat).

Definition human_size_spec (n : Z) : string :=
  let k := selected_unit n in
  format_1f_Q (running_value n k) +:+ " " +:+ nth k unit_names EmptyString.









(** ** Specification vocabulary: listing and file system *)

Definition listing_url (config : DownloadConfig) (a : Address) : Url :=
  urljoin (base_url config) (address_path a).


(** What [list_available_files] makes of the parsed listing, or of an
    exception raised inside its [try] block after the request was sent:
    an [aiohttp.ClientError] is reported on the console and becomes the
    empty listing, anything else propagates. *)
Definition absorb_client_error (url : Url) (o : outcome (list FileInfo)) (w : world)
  : outcome (list FileInfo) * world :=
  match o with
  | Returned files => (Returned files, w)
  | Raised e =>
      if is_ClientError e
      then (Returned [], emit (Console (ErrorAccessing url e)) w)
      else (Raised e, w)
  end.

(** Between [w] and [w'] no file other than [target] has changed, a
    file at [target] has not been removed, and the log has only been
    added to. *)
Definition grows (target : Path) (w w' : world) : Prop :=
  (∀ q, q ≠ target → files w' !! q = files w !! q)
  ∧ (is_Some (files w !! target) → is_Some (files w' !! target))
  ∧ log w `prefix_of` log w'.

(** Every run of [m] only [grows] the file system around [target]. *)
Definition preserves {A} (target : Path) (m : M A) : Prop :=
  ∀ w r w', m w = (r, w') → grows target w w'.

(** Between [w] and [w'] no file other than [target] has changed. *)
Definition untouched (target : Path) (w w' : world) : Prop :=
  ∀ q, q ≠ target → files w' !! q = files w !! q.

(** The first thing that goes wrong while the body is streamed to the
    file, if anything does. *)
Fixpoint body_failure (body : list stream_event) : option exn :=
  match body with
  | [] => None
  | StreamRaises e :: _ => Some e
  | Chunk _ (Some e) :: _ => Some e
  | Chunk _ None :: rest => body_failure rest
  end.

(** ** Specification vocabulary: batches *)

(** The environment lets the transfer run to its end: the directory can
    be made, the server answers with a status below 400 and a usable
    content length, the file can be opened, and neither the stream nor a
    write breaks. *)
Definition transfer_succeeds (env : attempt_env) : bool :=
  match e_mkdir env, e_get env with
  | None, Returned resp =>
      (r_status resp <? 400)
      && match total_size_of resp with Returned _ => true | Raised _ => false end
      && match e_open env with None => true | Some _ => false end
      && match body_failure (r_body resp) with None => true | Some _ => false end
  | _, _ => false
  end.

(** How many of the first [m] attempts succeed. *)
Definition succeeding (envs : nat → attempt_env) (m : nat) : nat :=
  count_if (λ i, transfer_succeeds (envs i)) (seq 0 m).

Definition acquires (i : nat) (ev : sched_event) : bool :=
  match ev with Acquire j => Nat.eqb i j | Complete _ => false end.

Definition completes (i : nat) (ev : sched_event) : bool :=
  match ev with Complete j => Nat.eqb i j | Acquire _ => false end.

(** How many times the schedule runs the transfer of record [i]. *)
Definition attempts (i : nat) (sched : list sched_event) : nat :=
  count_if (completes i) sched.

(** The schedule that transfers one record after the other. *)
Definition sequential (first count : nat) : list sched_event :=
  flat_map (λ i, [Acquire i; Complete i]) (seq first count).

(** Whether task [i] has entered the [async with semaphore] block, and
    whether its transfer has been run, as numbers. *)
Definition acquired (b : batch) (i : nat) : nat :=
  match tasks b !! i with
  | Some (InFlight _) | Some (Done _) => 1
  | Some Pending | None => 0
  end.

Definition completed (b : batch) (i : nat) : nat :=
  match tasks b !! i with
  | Some (Done _) => 1
  | _ => 0
  end.

(** The steps a batch still has to take: two for a waiting task, one
    for a task in flight. *)
Definition remaining (b : batch) : nat :=
  2 * count_if is_pending (tasks b) + in_flight b.

(** What holds of every state of a batch over [files] started with [n]
    permits. *)
Record batch_inv (files : list FileInfo) (envs : nat → attempt_env) (n : Z) (b : batch)
  : Prop := {
  inv_length : length (tasks b) = length files;
  inv_permits : sem b + Z.of_nat (in_flight b) = n;
  inv_sem : 0 ≤ sem b;
  inv_results : ∀ i r, tasks b !! i = Some (Done r) →
                       counts_as_success (Done r) = transfer_succeeds (envs i)
}.

(** ** Sample data *)

Definition sample_config : DownloadConfig :=
  {| base_url := "https://data.ecmwf.int/forecasts/";
     output_dir := ["ecmwf_data"];
     max_concurrent_downloads := 5;
     timeout_seconds := 300;
     chunk_size := 8192 |}.

Definition sample_address : Address :=
  {| a_date := "20250617"; a_forecast_time := "12z"; a_model := "ifs";
     a_resolution := "0p25"; a_data_type := "oper" |}.

Definition sample_file (name : string) : FileInfo :=
  {| fi_filename := name;
     fi_url := urljoin "https://data.ecmwf.int/forecasts/20250617/12z/ifs/0p25/oper/" name;
     fi_date := "20250617"; fi_forecast_time := "12z"; fi_model := "ifs";
     fi_resolution := "0p25"; fi_data_type := "oper";
     fi_forecast_hour := forecast_hour_of name;
     fi_size := "2.0 B"; fi_raw_size := 2;
     fi_type := _get_file_type name;
     fi_modified := "17-06-2025 12:00" |}.

Definition empty_world : world := {| files := ∅; dirs := ∅; log := [] |}.

(** A transfer that delivers both bytes of the file. *)
Definition env_complete : attempt_env :=
  {| e_mkdir := None;
     e_get := Returned {| r_status := 200; r_content_length := Some "2";
                          r_body := [Chunk [Byte.x47; Byte.x52] None] |};
     e_open := None |}.

(** A transfer whose stream breaks after the first byte. *)
Definition env_interrupted : attempt_env :=
  {| e_mkdir := None;
     e_get := Returned {| r_status := 200; r_content_length := Some "2";
                          r_body := [Chunk [Byte.x47] None; StreamRaises TimeoutError] |};
     e_open := None |}.

(** A transfer refused by the server before anything is written. *)
Definition env_refused : attempt_env :=
  {| e_mkdir := None;
     e_get := Returned {| r_status := 500; r_content_length := None; r_body := [] |};
     e_open := None |}.

(** A transfer that cannot even create its directory. *)
Definition env_no_directory : attempt_env :=
  {| e_mkdir := Some OSError; e_get := Raised ClientError; e_open := None |}.

(** The world after an earlier, complete download of the sample file. *)
Definition world_with_file (name : string) : world :=
  {| files := {[ output_path_of sample_config (sample_file name) := [Byte.x47; Byte.x52] ]};
     dirs := {[ ["ecmwf_data"]; ["ecmwf_data"; "20250617"] ]};
     log := [] |}.

(** Three records, of which the second meets a broken stream. *)
Definition sample_files : list FileInfo :=
  [sample_file "a-0h-oper-fc.grib2"; sample_file "a-3h-oper-fc.grib2";
   sample_file "a-6h-oper-fc.grib2"].

Definition sample_envs (i : nat) : attempt_env :=
  match i with
  | 1%nat => env_interrupted
  | _ => env_complete
  end.

(** The same records when the second cannot create its directory, so
    that its [download_file] raises instead of returning. *)
Definition sample_envs_raising (i : nat) : attempt_env :=
  match i with
  | 1%nat => env_no_directory
  | _ => env_complete
  end.

(** A listing page with one entry, whose anchor text is [name]. *)
Definition page_with_entry (href name : string) : string :=
  "<a href=" +:+ dq +:+ href +:+ dq +:+ ">" +:+ name
  +:+ "</a>  17-06-2025 12:00  1536  1".

(** The filename and the kind of each record of a listing. *)
Definition names_and_kinds (o : outcome (list FileInfo))
  : outcome (list (string * FileType)) :=
  match o with
  | Returned files => Returned (map (λ r, (fi_filename r, fi_type r)) files)
  | Raised e => Raised e
  end.

(** ** Further vocabulary: transfers *)

(** The bytes that reach the file before the first thing that goes wrong
    in the stream; all of the body when nothing does. *)
Fixpoint written_before_failure (body : list stream_event) : list Byte.byte :=
  match body with
  | Chunk data None :: rest => (data ++ written_before_failure rest)%list
  | _ => []
  end.

Definition is_progress_update (ev : event) : bool :=
  match ev with
  | ProgressTotal _ _ | ProgressCompleted _ _ => true
  | _ => false
  end.

Definition is_http_get (ev : event) : bool :=
  match ev with HttpGet _ => true | _ => false end.

Definition is_unlink (ev : event) : bool :=
  match ev with Unlink _ => true | _ => false end.

(** Every run of [m] takes a world to one related to it by [R]. *)
Definition respects {A} (R : relation world) (m : M A) : Prop :=
  ∀ w r w', m w = (r, w') → R w w'.

(** From [w] to [w'] the log has gained only events that satisfy [P]. *)
Definition adds_only (P : event → bool) (w w' : world) : Prop :=
  ∃ l, log w' = (log w ++ l)%list ∧ forallb P l = true.

(** From [w] to [w'] no file but the one at [target] has changed, no
    directory has gone and the log has only been added to. *)
Definition fs_frame (target : Path) (w w' : world) : Prop :=
  untouched target w w' ∧ dirs w ⊆ dirs w' ∧ log w `prefix_of` log w'.

(** From [w] to [w'] the file system is the same. *)
Definition same_fs (w w' : world) : Prop :=
  files w' = files w ∧ dirs w' = dirs w.

(** A transfer stopped from outside while it streams: nothing an
    [except Exception] clause catches. *)
Definition env_cancelled : attempt_env :=
  {| e_mkdir := None;
     e_get := Returned {| r_status := 200; r_content_length := Some "2";
                          r_body := [Chunk [Byte.x47] None; StreamRaises CancelledError] |};
     e_open := None |}.

(** A transfer whose response declares no length. *)
Definition env_no_length : attempt_env :=
  {| e_mkdir := None;
     e_get := Returned {| r_status := 200; r_content_length := None;
                          r_body := [Chunk [Byte.x47] None; Chunk [Byte.x52] None] |};
     e_open := None |}.

(** All the bytes of a body. *)
Fixpoint all_bytes (body : list stream_event) : list Byte.byte :=
  match body with
  | [] => []
  | Chunk data _ :: rest => (data ++ all_bytes rest)%list
  | StreamRaises _ :: rest => all_bytes rest
  end.

(** The [completed] values of the progress updates in a log, in order. *)
Definition completed_reports (l : list event) : list Z :=
  omap (λ ev, match ev with ProgressCompleted _ n => Some n | _ => None end) l.

(** A transfer that delivers the file in two chunks and declares its
    length. *)
Definition env_two_chunks : attempt_env :=
  {| e_mkdir := None;
     e_get := Returned {| r_status := 200; r_content_length := Some "2";
                          r_body := [Chunk [Byte.x47] None; Chunk [Byte.x52] None] |};
     e_open := None |}.


(** ** Further vocabulary: batches *)

(** A configuration whose limit is zero. *)
Definition zero_limit_config : DownloadConfig :=
  {| base_url := "https://data.ecmwf.int/forecasts/";
     output_dir := ["ecmwf_data"];
     max_concurrent_downloads := 0;
     timeout_seconds := 300;
     chunk_size := 8192 |}.


(** ** Further vocabulary: listings *)

(** The addresses requested in a log, in order. *)
Definition http_gets (l : list event) : list Url :=
  omap (λ ev, match ev with HttpGet u => Some u | _ => None end) l.

(** The events of a log that act on the file system. *)
Definition is_fs_action (ev : event) : bool :=
  match ev with
  | Mkdir _ | OpenWb _ | FileWrite _ _ | Unlink _ => true
  | _ => false
  end.


(** ** Further vocabulary: the parser *)

(** What every match of [file_pattern] has: an admitted [href], a
    non-empty anchor text, and a non-empty run of digits as its size. *)
Definition match_shape (m : file_match) : Prop :=
  href_admitted (m_href m) = true
  ∧ m_filename m ≠ EmptyString
  ∧ m_size m ≠ EmptyString
  ∧ PyStr.all_digits (m_size m) = true.


(** What every record of a listing has, whatever the page says. *)
Definition record_shape (base_url : string) (a : Address) (r : FileInfo) : Prop :=
  0 ≤ fi_raw_size r
  ∧ PyStr.strip (fi_filename r) = fi_filename r
  ∧ (fi_forecast_hour r = "unknown"
     ∨ (fi_forecast_hour r ≠ EmptyString ∧ PyStr.all_digits (fi_forecast_hour r) = true))
  ∧ (∃ href, fi_url r = urljoin (base_url +:+ address_path a) href
             ∧ href_admitted href = true)
  ∧ fi_date r = a_date a
  ∧ fi_forecast_time r = a_forecast_time a
  ∧ fi_model r = a_model a
  ∧ fi_resolution r = a_resolution a
  ∧ fi_data_type r = a_data_type a.

(* ================================================================== *)
(** * Properties *)

(** ** Examples *)

Example get_file_type_grib2 :
  _get_file_type "20250617120000-6h-oper-fc.grib2" = GRIB.
Proof. reflexivity. Qed.

Example get_file_type_index :
  _get_file_type "20250617120000-6h-oper-fc.index" = Unknown.
Proof. reflexivity. Qed.

Example admitted_index_and_upper_case_are_unknown :
  names_and_kinds
    (_parse_data_files (base_url sample_config)
       (page_with_entry "b.index" "b.index" +:+ page_with_entry "C.GRIB2" "C.GRIB2")
       sample_address)
  = Returned [("b.index", Unknown); ("C.GRIB2", Unknown)].
Proof. vm_compute. reflexivity. Qed.

Example format_1280 : _format_file_size 1280 = Returned "1.2 KB".
Proof. vm_compute. reflexivity. Qed.

Example format_just_below_overflow :
  ∃ s, _format_file_size (2 ^ 1034 - 2 ^ 990) = Returned s.
Proof. vm_compute. eexists. reflexivity. Qed.

Example forecast_hour_first_match : forecast_hour_of "x-12h-y-6h-z" = "12".
Proof. reflexivity. Qed.

Example findall_two_entries :
  findall_file_pattern
    ("<pre><a href=" +:+ dq +:+ "a-6h-x.grib2" +:+ dq +:+ ">a-6h-x.grib2</a>   17-06-2025 12:00   100  1
<A HREF=" +:+ dq +:+ "b.INDEX" +:+ dq +:+ " class=x>b.INDEX </a> 17-06-2025  12:00 7 22</pre>")
  = [ {| m_href := "a-6h-x.grib2"; m_filename := "a-6h-x.grib2";
         m_date_time := "17-06-2025 12:00"; m_size := "100"; m_file_id := "1" |};
      {| m_href := "b.INDEX"; m_filename := "b.INDEX ";
         m_date_time := "17-06-2025  12:00"; m_size := "7"; m_file_id := "22" |} ].
Proof. vm_compute. reflexivity. Qed.

Example findall_skips_other_suffixes :
  findall_file_pattern (page_with_entry "notes.txt" "notes.txt") = [].
Proof. vm_compute. reflexivity. Qed.

Example parse_one_entry :
  _parse_data_files "https://data.ecmwf.int/forecasts/"
    (page_with_entry "a-6h-oper-fc.grib2" "a-6h-oper-fc.grib2") sample_address
  = Returned [ {|
        fi_filename := "a-6h-oper-fc.grib2";
        fi_url := urljoin "https://data.ecmwf.int/forecasts/20250617/12z/ifs/0p25/oper/"
                    "a-6h-oper-fc.grib2";
        fi_date := "20250617"; fi_forecast_time := "12z"; fi_model := "ifs";
        fi_resolution := "0p25"; fi_data_type := "oper";
        fi_forecast_hour := "6"; fi_size := "1.5 KB"; fi_raw_size := 1536;
        fi_type := GRIB; fi_modified := "17-06-2025 12:00" |} ].
Proof. vm_compute. reflexivity. Qed.

Example validate_ok : validate_date_format "20250617" = true.
Proof. reflexivity. Qed.

Example validate_feb30 : validate_date_format "20250230" = false.
Proof. reflexivity. Qed.

Example validate_month_13 : validate_date_format "20251301" = false.
Proof. reflexivity. Qed.

Example validate_six_characters : strptime_Ymd "202561" = inr (2025, 6, 1).
Proof. reflexivity. Qed.

Example validate_backtracks : strptime_Ymd "202511" = inr (2025, 1, 1).
Proof. reflexivity. Qed.

Example validate_space_padded_day : strptime_Ymd "202506 1" = inr (2025, 6, 1).
Proof. reflexivity. Qed.

Example download_complete :
  let name := "a-6h-oper-fc.grib2" in
  let r := download_file sample_config (sample_file name) 0 env_complete empty_world in
  r.1 = Returned true
  ∧ files r.2 !! output_path_of sample_config (sample_file name)
    = Some [Byte.x47; Byte.x52].
Proof. vm_compute. done. Qed.

Example download_raises_without_directory :
  (download_file sample_config (sample_file "a-6h-oper-fc.grib2") 0 env_no_directory
     empty_world).1 = Raised OSError.
Proof. reflexivity. Qed.

(** ** Strings *)

Lemma app_cons c s t : String c s +:+ t = String c (s +:+ t).
Proof. reflexivity. Qed.

Lemma app_empty_l t : EmptyString +:+ t = t.
Proof. reflexivity. Qed.

(** ** Transfer of one file: effect on the file system *)

Ltac unfold_M :=
  unfold mbind, M_bind, mret, M_ret, bind, ret, raise, tell, lift in *.

Lemma grows_refl target w : grows target w w.
Proof. by repeat split. Qed.

Lemma grows_trans target w1 w2 w3 :
  grows target w1 w2 → grows target w2 w3 → grows target w1 w3.
Proof.
  intros (H1 & H1' & H1'') (H2 & H2' & H2''). repeat split; [|tauto|by etrans].
  intros q Hq. by rewrite H2, H1.
Qed.

Lemma preserves_ret {A} target (a : A) : preserves target (ret a).
Proof. intros w r w' [= <- <-]. apply grows_refl. Qed.

Lemma preserves_raise {A} target e : preserves target (@raise A e).
Proof. intros w r w' [= <- <-]. apply grows_refl. Qed.

Lemma preserves_lift {A} target (o : outcome A) : preserves target (lift o).
Proof. intros w r w' [= <- <-]. apply grows_refl. Qed.

Lemma preserves_tell target ev : preserves target (tell ev).
Proof. intros w r w' [= <- <-]. repeat split; [done|]. by apply prefix_app_r. Qed.

Lemma preserves_bind {A B} target (m : M A) (k : A → M B) :
  preserves target m → (∀ a, preserves target (k a)) → preserves target (m ≫= k).
Proof.
  intros Hm Hk w r w'. unfold_M. destruct (m w) as [[a|e] w1] eqn:E; intros H.
  - eapply grows_trans; [by eapply Hm | by eapply Hk].
  - simplify_eq. by eapply Hm.
Qed.

Lemma preserves_if {A} target (c : bool) (m1 m2 : M A) :
  preserves target m1 → preserves target m2 → preserves target (if c then m1 else m2).
Proof. by destruct c. Qed.

Lemma preserves_open_wb target raises : preserves target (open_wb target raises).
Proof.
  intros w r w'. unfold open_wb. destruct raises; intros [= <- <-]; [apply grows_refl|].
  repeat split; simpl; [intros q Hq; by rewrite lookup_insert_ne| |by apply prefix_app_r].
  rewrite lookup_insert_eq. eauto.
Qed.

Lemma preserves_write_chunk target data raises :
  preserves target (write_chunk target data raises).
Proof.
  intros w r w'. unfold write_chunk. destruct raises; intros [= <- <-]; [apply grows_refl|].
  repeat split; simpl; [intros q Hq; by rewrite lookup_insert_ne| |by apply prefix_app_r].
  rewrite lookup_insert_eq. eauto.
Qed.

Lemma preserves_session_get {R} target url (answer : outcome R) :
  preserves target (session_get url answer).
Proof. apply preserves_bind; [apply preserves_tell|intros; apply preserves_lift]. Qed.

Lemma preserves_raise_for_status target status :
  preserves target (raise_for_status status).
Proof. apply preserves_if; [apply preserves_raise|apply preserves_ret]. Qed.

Create HintDb preserves.

#[local] Hint Resolve preserves_ret preserves_raise preserves_lift preserves_tell
  preserves_open_wb preserves_write_chunk preserves_session_get
  preserves_raise_for_status : preserves.

Lemma preserves_stream_to_file body target task_id total :
  ∀ downloaded, preserves target (stream_to_file body target task_id total downloaded).
Proof.
  induction body as [|[data wr|e] rest IH]; intros downloaded; simpl;
    auto with preserves.
  apply preserves_bind; [auto with preserves|intros _].
  apply preserves_bind; [apply preserves_if; auto with preserves|intros _].
  apply IH.
Qed.

(** The [try] block never removes a file. *)
Lemma preserves_download_file_try config file_info task_id env :
  preserves (output_path_of config file_info)
    (download_file_try config file_info task_id env).
Proof.
  unfold download_file_try.
  repeat first
    [ apply preserves_bind; [|intros ?]
    | apply preserves_if
    | apply preserves_stream_to_file
    | solve [auto with preserves] ].
Qed.

Lemma stream_to_file_outcome body target task_id total :
  ∀ downloaded w,
    (stream_to_file body target task_id total downloaded w).1
    = match body_failure body with Some e => Raised e | None => Returned tt end.
Proof.
  induction body as [|[data [e|]|e] rest IH]; intros downloaded w;
    simpl; unfold_M; unfold write_chunk; try done.
  destruct (0 <? total); simpl; apply IH.
Qed.

(** What the [except] block does, by whether something is at the
    destination path when it starts. *)
Lemma download_file_except_file config file_info e w content :
  files w !! output_path_of config file_info = Some content →
  download_file_except config file_info e w
  = (Returned false,
     emit (Unlink (output_path_of config file_info))
       {| files := delete (output_path_of config file_info) (files w);
          dirs := dirs w;
          log := (log w ++ [Console (FailedToDownload (fi_filename file_info) e)])%list |}).
Proof.
  intros Hf. unfold download_file_except, path_exists, unlink. unfold_M. simpl.
  rewrite bool_decide_eq_true_2 by eauto. simpl. by rewrite Hf.
Qed.

Lemma download_file_except_returns config file_info e w r w' :
  download_file_except config file_info e w = (r, w') →
  r = Returned false →
  files w' !! output_path_of config file_info = None
  ∧ untouched (output_path_of config file_info) w w'.
Proof.
  destruct (files w !! output_path_of config file_info) as [content|] eqn:Hf.
  - erewrite download_file_except_file by done. intros [= <- <-] _. simpl.
    split; [apply lookup_delete_eq|]. intros q Hq. simpl. by rewrite lookup_delete_ne.
  - unfold download_file_except, path_exists, unlink. unfold_M. simpl.
    rewrite Hf. rewrite (bool_decide_eq_false_2 (is_Some None)) by (by intros [? ?]).
    simpl. destruct (bool_decide _); simpl; rewrite ?Hf; intros [= <- <-]; [done|].
    intros _. split; [done|]. by intros q Hq.
Qed.

(** Every value a computation returns satisfies [P]. *)
Lemma returns_bind {A B} (P : B → Prop) (m : M A) (k : A → M B) w b w' :
  (∀ a w1, k a w1 = (Returned b, w') → P b) →
  (m ≫= k) w = (Returned b, w') → P b.
Proof.
  intros Hk. unfold_M. destruct (m w) as [[a|e] w1]; [apply Hk|done].
Qed.

(** The [try] block returns nothing but [True]. *)
Lemma download_file_try_returns config file_info task_id env w b w' :
  download_file_try config file_info task_id env w = (Returned b, w') → b = true.
Proof.
  unfold download_file_try.
  repeat (apply (returns_bind (λ b, b = true)); intros ? ?).
  by intros [= <- <-].
Qed.

(** The [try] block when the transfer gets as far as creating the file
    and then breaks. *)
Lemma download_file_try_breaks config file_info task_id env w resp total e :
  e_get env = Returned resp →
  r_status resp < 400 →
  total_size_of resp = Returned total →
  e_open env = None →
  body_failure (r_body resp) = Some e →
  ∃ w', download_file_try config file_info task_id env w = (Raised e, w')
        ∧ OpenWb (output_path_of config file_info) ∈ log w'
        ∧ is_Some (files w' !! output_path_of config file_info).
Proof.
  intros Hget Hstatus Htotal Hopen Hbody.
  unfold download_file_try, session_get, raise_for_status, open_wb. unfold_M.
  rewrite Hget, Htotal, Hopen. simpl.
  destruct (400 <=? r_status resp) eqn:E; [lia|]. simpl.
  destruct (0 <? total); simpl.
  all: match goal with
  | |- context [stream_to_file ?b ?t ?i ?tot ?d ?w0] =>
      pose proof (stream_to_file_outcome b t i tot d w0) as Hout;
      pose proof (preserves_stream_to_file b t i tot d w0) as Hpres;
      destruct (stream_to_file b t i tot d w0) as [r0 w0'] eqn:Hs
  end.
  all: simpl in Hout; rewrite Hbody in Hout; subst r0.
  all: specialize (Hpres _ _ eq_refl) as (_ & Hsome & Hlog).
  all: eexists; split; [done|]; split;
    [ eapply elem_of_prefix; [|exact Hlog]; simpl; set_solver
    | apply Hsome; simpl; rewrite lookup_insert_eq; eauto ].
Qed.

(** C1.  A transfer that has created the destination file and then
    breaks on a transport or I/O error (the stream raises, or a write
    does) makes [download_file] return [False] with no file left at the
    destination path: the file that was opened is unlinked, and the
    unlinking is the last thing done before the attempt reports its
    failure. *)
Theorem download_file_no_partial_file config file_info task_id env w resp total e :
  e_mkdir env = None →
  e_get env = Returned resp →
  r_status resp < 400 →
  total_size_of resp = Returned total →
  e_open env = None →
  body_failure (r_body resp) = Some e →
  is_Exception e = true →
  ∃ w', download_file config file_info task_id env w = (Returned false, w')
        ∧ files w' !! output_path_of config file_info = None
        ∧ OpenWb (output_path_of config file_info) ∈ log w'
        ∧ last (log w') = Some (Unlink (output_path_of config file_info)).
Proof.
  intros Hmkdir Hget Hstatus Htotal Hopen Hbody Hexc.
  unfold download_file, mkdir_parents, try_except. unfold_M. rewrite Hmkdir.
  match goal with
  | |- context [download_file_try ?c ?f ?t ?en ?w0] =>
      destruct (download_file_try_breaks c f t en w0 resp total e)
        as (w1 & -> & Hlog & [content Hfile]); try done
  end.
  rewrite Hexc. erewrite download_file_except_file by done.
  eexists; split; [done|]. simpl. split; [apply lookup_delete_eq|]. split.
  - set_solver.
  - by rewrite last_snoc.
Qed.

Lemma download_file_no_partial_file_witness :
  ∃ w', download_file sample_config (sample_file "a-6h-oper-fc.grib2") 0
          env_interrupted empty_world = (Returned false, w')
        ∧ files w' !! output_path_of sample_config (sample_file "a-6h-oper-fc.grib2") = None
        ∧ OpenWb (output_path_of sample_config (sample_file "a-6h-oper-fc.grib2")) ∈ log w'
        ∧ last (log w')
          = Some (Unlink (output_path_of sample_config (sample_file "a-6h-oper-fc.grib2"))).
Proof.
  apply (download_file_no_partial_file sample_config (sample_file "a-6h-oper-fc.grib2") 0
           env_interrupted empty_world
           {| r_status := 200; r_content_length := Some "2";
              r_body := [Chunk [Byte.x47] None; StreamRaises TimeoutError] |}
           2 TimeoutError); reflexivity.
Defined.

(** C10.  Whenever [download_file] handles a failure (it returns
    [False]) and a file was at the destination path before the call, for
    instance the complete file of an earlier download, that file is gone
    afterwards, whether or not the failing attempt had written anything:
    the last action is the unlinking of the destination path, and no
    other file is changed. *)
Theorem download_file_failure_deletes_existing_file
    config file_info task_id env w w' old :
  files w !! output_path_of config file_info = Some old →
  download_file config file_info task_id env w = (Returned false, w') →
  files w' !! output_path_of config file_info = None
  ∧ untouched (output_path_of config file_info) w w'
  ∧ last (log w') = Some (Unlink (output_path_of config file_info)).
Proof.
  intros Hold. unfold download_file, mkdir_parents, try_except. unfold_M.
  destruct (e_mkdir env); [done|].
  match goal with
  | |- context [download_file_try ?c ?f ?t ?en ?w0] =>
      pose proof (preserves_download_file_try c f t en w0) as Hpres;
      destruct (download_file_try c f t en w0) as [[b|e] w1] eqn:Htry
  end.
  - apply download_file_try_returns in Htry as ->. done.
  - specialize (Hpres _ _ eq_refl) as (Hframe & Hsome & _).
    destruct (is_Exception e); [|done].
    destruct Hsome as [content Hfile]; [simpl; eauto|].
    erewrite download_file_except_file by done. intros [= <-]. simpl.
    split; [apply lookup_delete_eq|]. split; [|by rewrite last_snoc].
    intros q Hq. simpl. rewrite lookup_delete_ne by done. by rewrite Hframe.
Qed.

Lemma download_file_failure_deletes_existing_file_witness :
  let name := "a-6h-oper-fc.grib2" in
  let w := world_with_file name in
  let w' := (download_file sample_config (sample_file name) 0 env_refused w).2 in
  files w !! output_path_of sample_config (sample_file name) = Some [Byte.x47; Byte.x52]
  ∧ files w' !! output_path_of sample_config (sample_file name) = None
  ∧ untouched (output_path_of sample_config (sample_file name)) w w'
  ∧ last (log w') = Some (Unlink (output_path_of sample_config (sample_file name))).
Proof.
  intros name w w'.
  assert (files w !! output_path_of sample_config (sample_file name)
          = Some [Byte.x47; Byte.x52]) as Hold by (vm_compute; reflexivity).
  split; [exact Hold|].
  apply (download_file_failure_deletes_existing_file sample_config (sample_file name) 0
           env_refused w w' _ Hold).
  vm_compute. reflexivity.
Defined.

(** ** Batch transfer *)

(** The [try] block either returns [True] or raises, and which of the
    two is decided by the environment alone. *)
Lemma download_file_try_outcome config file_info task_id env w :
  e_mkdir env = None →
  (∃ w', download_file_try config file_info task_id env w = (Returned true, w')
         ∧ transfer_succeeds env = true)
  ∨ (∃ e w', download_file_try config file_info task_id env w = (Raised e, w')
             ∧ transfer_succeeds env = false).
Proof.
  intros Hmk.
  assert (∀ (r : outcome bool) (w1 : world) (s : bool),
            match r with Returned b => b = true ∧ s = true | Raised _ => s = false end →
            (∃ w', (r, w1) = (Returned true, w') ∧ s = true)
            ∨ (∃ e w', (r, w1) = (Raised e, w') ∧ s = false)) as Hcase.
  { intros [b|e] w1 s; [intros [-> ->]; left|intros ->; right]; eauto. }
  unfold download_file_try, transfer_succeeds, session_get, raise_for_status, open_wb.
  unfold_M. rewrite Hmk.
  destruct (e_get env) as [resp|e]; simpl; [|by apply Hcase].
  rewrite Z.leb_antisym. destruct (r_status resp <? 400); simpl; [|by apply Hcase].
  destruct (total_size_of resp) as [total|e]; simpl; [|by apply Hcase].
  destruct (0 <? total); simpl.
  all: destruct (e_open env); simpl; [by apply Hcase|].
  all: match goal with
       | |- context [stream_to_file ?b ?t ?i ?tot ?d ?w0] =>
           pose proof (stream_to_file_outcome b t i tot d w0) as Hout;
           destruct (stream_to_file b t i tot d w0) as [r0 w0']
       end; simpl in Hout; subst r0.
  all: destruct (body_failure (r_body resp)); simpl; by apply Hcase.
Qed.

Lemma download_file_except_not_true config file_info e w :
  (download_file_except config file_info e w).1 ≠ Returned true.
Proof.
  unfold download_file_except, path_exists, unlink. unfold_M. simpl.
  destruct (_ || _); simpl; [|done].
  by destruct (files w !! _).
Qed.

(** Whether an attempt returns [True] is decided by its environment
    alone, whatever the file system holds. *)
Lemma download_file_success config file_info task_id env w :
  (download_file config file_info task_id env w).1 = Returned true
  ↔ transfer_succeeds env = true.
Proof.
  unfold download_file, mkdir_parents, try_except. unfold_M.
  destruct (e_mkdir env) as [e|] eqn:Hmk; simpl.
  { unfold transfer_succeeds. rewrite Hmk. done. }
  match goal with
  | |- context [download_file_try ?c ?f ?t ?en ?w0] =>
      destruct (download_file_try_outcome c f t en w0 Hmk)
        as [(w1 & -> & ->)|(e & w1 & -> & ->)]
  end; [done|].
  split; [|done]. intros H. exfalso.
  destruct (is_Exception e); [|done].
  by eapply download_file_except_not_true.
Qed.

Lemma download_with_progress_body_success config file_info task_id env w :
  counts_as_success
    (Done (download_with_progress_body config file_info task_id env w).1)
  = transfer_succeeds env.
Proof.
  pose proof (download_file_success config file_info task_id env w) as H.
  unfold download_with_progress_body. unfold_M.
  destruct (download_file config file_info task_id env w) as [[[]|e] w1];
    simpl in *; destruct (transfer_succeeds env); try done.
  - exfalso. destruct H as [H _]. by specialize (H eq_refl).
  - destruct H as [_ H]. by specialize (H eq_refl).
  - destruct H as [_ H]. by specialize (H eq_refl).
Qed.

Lemma count_if_le {A} (p : A → bool) l : (count_if p l ≤ length l)%nat.
Proof. induction l as [|x l IH]; simpl; [lia|destruct (p x); lia]. Qed.

(** Replacing the entry at [i] changes a count by the difference of the
    two entries. *)
Lemma count_if_insert {A} (p : A → bool) (l : list A) i x y :
  l !! i = Some x →
  (count_if p (<[i := y]> l) + (if p x then 1 else 0)
   = count_if p l + (if p y then 1 else 0))%nat.
Proof.
  revert i. induction l as [|z l IH]; intros [|i] H; simplify_eq/=; [lia|].
  specialize (IH _ H). lia.
Qed.

Section batch.

Context (config : DownloadConfig) (files : list FileInfo) (envs : nat → attempt_env).

#[local] Abbreviation step := (step config files envs).
#[local] Abbreviation run := (run config files envs).
#[local] Abbreviation batch_inv := (batch_inv files envs).

Lemma batch_init_inv n w : 0 ≤ n → batch_inv n (batch_init n files w).
Proof.
  intros Hn. split; simpl; [by rewrite length_map| |done|].
  - assert (in_flight (batch_init n files w) = 0%nat) as ->; [|lia].
    unfold in_flight, batch_init. simpl. by induction files.
  - intros i r H. apply list_lookup_fmap_Some in H as (? & ? & ?). done.
Qed.

Lemma step_inv n ev b b' : batch_inv n b → step ev b = Some b' → batch_inv n b'.
Proof.
  intros [Hlen Hperm Hsem Hres] Hstep. destruct ev as [i|i]; simpl in Hstep.
  - destruct (tasks b !! i) as [[]|] eqn:Ht; try done.
    destruct (files !! i) as [file_info|]; [|done].
    destruct (0 <? sem b) eqn:Hpos; [|done]. simplify_eq.
    pose proof (count_if_insert is_in_flight _ _ _ (InFlight (next_task_id b)) Ht) as Hc.
    split; simpl.
    + by rewrite length_insert.
    + unfold in_flight in *. simpl in *. lia.
    + lia.
    + intros j r Hj. destruct (decide (i = j)) as [->|Hne].
      * rewrite list_lookup_insert_eq in Hj; [done|]. by eapply lookup_lt_Some.
      * rewrite list_lookup_insert_ne in Hj by done. eauto.
  - destruct (tasks b !! i) as [[|task_id|]|] eqn:Ht; try done.
    destruct (files !! i) as [file_info|]; [|done].
    destruct (download_with_progress_body _ _ _ _ _) as [r w'] eqn:Hbody.
    simplify_eq.
    pose proof (count_if_insert is_in_flight _ _ _ (Done r) Ht) as Hc.
    split; simpl.
    + by rewrite length_insert.
    + unfold in_flight in *. simpl in *. lia.
    + lia.
    + intros j r' Hj. destruct (decide (i = j)) as [->|Hne].
      * rewrite list_lookup_insert_eq in Hj by (by eapply lookup_lt_Some).
        simplify_eq.
        by rewrite <- (download_with_progress_body_success config file_info task_id
                         (envs j) (bw b)), Hbody.
      * rewrite list_lookup_insert_ne in Hj by done. eauto.
Qed.

Lemma run_inv n sched : ∀ b b', batch_inv n b → run sched b = Some b' → batch_inv n b'.
Proof.
  induction sched as [|ev sched IH]; intros b b' Hinv Hrun; simpl in Hrun.
  - by simplify_eq.
  - destruct (step ev b) as [b1|] eqn:Hstep; [|done].
    eapply IH; [|done]. by eapply step_inv.
Qed.

Lemma step_counts ev b b' i :
  step ev b = Some b' →
  acquired b' i = (acquired b i + (if acquires i ev then 1 else 0))%nat
  ∧ completed b' i = (completed b i + (if completes i ev then 1 else 0))%nat.
Proof.
  intros Hstep. destruct ev as [j|j]; simpl in *.
  - destruct (tasks b !! j) as [[]|] eqn:Ht; try done.
    destruct (files !! j) as [file_info|]; [|done].
    destruct (0 <? sem b); [|done]. simplify_eq.
    unfold acquired, completed. simpl.
    destruct (Nat.eqb_spec i j) as [->|Hne].
    + rewrite list_lookup_insert_eq by (by eapply lookup_lt_Some). by rewrite Ht.
    + rewrite list_lookup_insert_ne by done. split; lia.
  - destruct (tasks b !! j) as [[|task_id|]|] eqn:Ht; try done.
    destruct (files !! j) as [file_info|]; [|done].
    destruct (download_with_progress_body _ _ _ _ _) as [r w'].
    simplify_eq. unfold acquired, completed. simpl.
    destruct (Nat.eqb_spec i j) as [->|Hne].
    + rewrite list_lookup_insert_eq by (by eapply lookup_lt_Some). by rewrite Ht.
    + rewrite list_lookup_insert_ne by done. split; lia.
Qed.

Lemma run_counts sched i : ∀ b b',
  run sched b = Some b' →
  acquired b' i = (acquired b i + count_if (acquires i) sched)%nat
  ∧ completed b' i = (completed b i + attempts i sched)%nat.
Proof.
  induction sched as [|ev sched IH]; intros b b' Hrun; simpl in Hrun.
  - simplify_eq. unfold attempts. simpl. lia.
  - destruct (step ev b) as [b1|] eqn:Hstep; [|done].
    apply (step_counts _ _ _ i) in Hstep as [Ha Hc].
    apply IH in Hrun as [Ha' Hc']. unfold attempts in *. simpl. lia.
Qed.

Lemma all_done_lookup b i :
  all_done b = true → (i < length (tasks b))%nat →
  ∃ r, tasks b !! i = Some (Done r).
Proof.
  unfold all_done. rewrite forallb_forall. intros Hall Hi.
  destruct (lookup_lt_is_Some_2 _ _ Hi) as [t Ht].
  specialize (Hall t). rewrite <- list_elem_of_In in Hall.
  destruct t; try (by eauto).
  all: exfalso; by specialize (Hall (list_elem_of_lookup_2 _ _ _ Ht)).
Qed.

Lemma batch_init_counts n w i :
  acquired (batch_init n files w) i = 0%nat ∧ completed (batch_init n files w) i = 0%nat.
Proof.
  unfold acquired, completed. simpl.
  destruct (_ !! i) as [t|] eqn:E; [|done].
  by apply list_lookup_fmap_Some in E as (? & -> & ?).
Qed.

(** In a complete execution every record's transfer has been started
    once and run once. *)
Lemma complete_run_once n sched w b i :
  0 ≤ n →
  run sched (batch_init n files w) = Some b →
  all_done b = true →
  (i < length files)%nat →
  count_if (acquires i) sched = 1%nat ∧ attempts i sched = 1%nat.
Proof.
  intros Hn Hrun Hdone Hi.
  pose proof (run_counts sched i _ _ Hrun) as [Ha Hc].
  pose proof (run_inv n sched _ _ (batch_init_inv n w Hn) Hrun) as [Hlen _ _ _].
  destruct (all_done_lookup b i Hdone) as [r Hr]; [lia|].
  destruct (batch_init_counts n w i) as [Ha0 Hc0]. rewrite Ha0 in Ha. rewrite Hc0 in Hc.
  unfold acquired, completed in Ha, Hc. rewrite Hr in Ha, Hc. simpl in *. lia.
Qed.

Lemma tally_count results : ∀ acc,
  tally results acc
  = {| success := success acc + Z.of_nat (count_if counts_as_success results);
       failed := failed acc
                 + Z.of_nat (length results - count_if counts_as_success results) |}.
Proof.
  induction results as [|t results IH]; intros [s f]; simpl.
  - f_equal; lia.
  - pose proof (count_if_le counts_as_success results).
    rewrite IH. destruct (counts_as_success t); simpl; f_equal; lia.
Qed.

Lemma count_if_pointwise {A} (p : A → bool) (q : nat → bool) (l : list A) : ∀ k,
  (∀ i x, l !! i = Some x → p x = q (k + i)%nat) →
  count_if p l = count_if q (seq k (length l)).
Proof.
  induction l as [|x l IH]; intros k H; simpl; [done|].
  rewrite (H 0%nat x eq_refl), Nat.add_0_r. f_equal.
  apply IH. intros i y Hy. rewrite (H (S i) y Hy). f_equal. lia.
Qed.

(** In a complete execution the results that count as successes are
    those of the environments that let the transfer through. *)
Lemma complete_run_successes n sched w b :
  0 ≤ n →
  run sched (batch_init n files w) = Some b →
  all_done b = true →
  count_if counts_as_success (tasks b) = succeeding envs (length files)
  ∧ length (tasks b) = length files.
Proof.
  intros Hn Hrun Hdone.
  pose proof (run_inv n sched _ _ (batch_init_inv n w Hn) Hrun) as [Hlen _ _ Hres].
  split; [|done]. unfold succeeding. rewrite <- Hlen.
  apply (count_if_pointwise _ (λ i, transfer_succeeds (envs i)) _ 0).
  intros i t Ht. simpl.
  destruct (all_done_lookup b i Hdone) as [r Hr]; [by eapply lookup_lt_Some|].
  simplify_eq. by apply Hres.
Qed.

(** With at least one permit the records can be transferred one after
    the other, which is a complete execution. *)
Lemma run_sequential n : ∀ count dones b,
  1 ≤ sem b →
  sem b + Z.of_nat (in_flight b) = n →
  tasks b = (dones ++ replicate count Pending)%list →
  forallb is_done dones = true →
  (length dones + count = length files)%nat →
  ∃ b', run (sequential (length dones) count) b = Some b' ∧ all_done b' = true.
Proof.
  induction count as [|count IH]; intros dones b Hsem Hperm Htasks Hdones Hlen.
  - exists b. split; [done|]. unfold all_done. rewrite Htasks. simpl.
    by rewrite app_nil_r.
  - unfold sequential. simpl.
    assert (tasks b !! length dones = Some Pending) as Ht.
    { rewrite Htasks. rewrite lookup_app_r by lia. by rewrite Nat.sub_diag. }
    rewrite Ht.
    destruct (lookup_lt_is_Some_2 files (length dones)) as [file_info Hf]; [lia|].
    rewrite Hf. destruct (0 <? sem b) eqn:Hpos; [|lia]. simpl.
    rewrite list_lookup_insert_eq by (by eapply lookup_lt_Some).
    destruct (download_with_progress_body _ _ _ _ _) as [r w'].
    rewrite list_insert_insert_eq.
    match goal with
    | |- context [run _ ?b1] => specialize (IH (dones ++ [Done r])%list b1)
    end.
    rewrite length_app, Nat.add_1_r in IH. apply IH; simpl.
    + lia.
    + pose proof (count_if_insert is_in_flight _ _ _ (Done r) Ht) as Hc.
      unfold in_flight in *. simpl in *. lia.
    + rewrite Htasks. rewrite insert_app_r_alt by lia. rewrite Nat.sub_diag. simpl.
      by rewrite <- app_assoc.
    + rewrite forallb_app, Hdones. done.
    + lia.
Qed.

Lemma complete_schedule_exists n w :
  1 ≤ n →
  ∃ b, run (sequential 0 (length files)) (batch_init n files w) = Some b
       ∧ all_done b = true.
Proof.
  intros Hn. apply (run_sequential n (length files) []); simpl; try done.
  - destruct (batch_init_inv n w) as [_ H _ _]; [lia|done].
  - clear. induction files; simpl; by f_equal.
Qed.

(** *** Progress: no schedule gets stuck, and none runs for ever *)

Lemma step_remaining ev b b' :
  step ev b = Some b' → S (remaining b') = remaining b.
Proof.
  intros Hstep. destruct ev as [i|i]; simpl in Hstep.
  - destruct (tasks b !! i) as [[]|] eqn:Ht; try done.
    destruct (files !! i) as [file_info|]; [|done].
    destruct (0 <? sem b); [|done]. simplify_eq.
    pose proof (count_if_insert is_in_flight _ _ _ (InFlight (next_task_id b)) Ht) as H1.
    pose proof (count_if_insert is_pending _ _ _ (InFlight (next_task_id b)) Ht) as H2.
    unfold remaining, in_flight in *. simpl in *. lia.
  - destruct (tasks b !! i) as [[|task_id|]|] eqn:Ht; try done.
    destruct (files !! i) as [file_info|]; [|done].
    destruct (download_with_progress_body _ _ _ _ _) as [r w'].
    simplify_eq.
    pose proof (count_if_insert is_in_flight _ _ _ (Done r) Ht) as H1.
    pose proof (count_if_insert is_pending _ _ _ (Done r) Ht) as H2.
    unfold remaining, in_flight in *. simpl in *. lia.
Qed.

(** A schedule that runs is as long as the steps it has used up. *)
Lemma run_remaining sched : ∀ b b',
  run sched b = Some b' → (length sched + remaining b' = remaining b)%nat.
Proof.
  induction sched as [|ev sched IH]; intros b b' Hrun; simpl in Hrun.
  - by simplify_eq.
  - destruct (step ev b) as [b1|] eqn:Hstep; [|done].
    apply step_remaining in Hstep. apply IH in Hrun. simpl. lia.
Qed.

Lemma count_if_pos {A} (p : A → bool) (l : list A) :
  (0 < count_if p l)%nat → ∃ i x, l !! i = Some x ∧ p x = true.
Proof.
  induction l as [|y l IH]; simpl; [lia|].
  destruct (p y) eqn:Hy.
  - intros _. by exists 0%nat, y.
  - intros H. destruct IH as (i & x & Hi & Hx); [lia|]. by exists (S i), x.
Qed.

Lemma remaining_all_done b : remaining b = 0%nat ↔ all_done b = true.
Proof.
  unfold remaining, in_flight, all_done. induction (tasks b) as [|t l IH]; simpl; [done|].
  destruct t; simpl; rewrite ?andb_true_iff; split; try lia; try tauto.
Qed.

(** With at least one permit, a batch that is not finished can take a
    step. *)
Lemma no_deadlock n b :
  1 ≤ n → batch_inv n b → all_done b = false → ∃ ev b', step ev b = Some b'.
Proof.
  intros Hn [Hlen Hperm Hsem _] Hnot.
  assert (0 < remaining b)%nat as Hrem.
  { destruct (remaining b) eqn:E; [|lia].
    apply remaining_all_done in E. congruence. }
  destruct (in_flight b) as [|k] eqn:Hfl.
  - unfold remaining in Hrem. rewrite Hfl in Hrem.
    destruct (count_if_pos is_pending (tasks b)) as (i & t & Hi & Ht); [lia|].
    destruct t; try done.
    destruct (lookup_lt_is_Some_2 files i) as [file_info Hf].
    { rewrite <- Hlen. by eapply lookup_lt_Some. }
    exists (Acquire i). simpl. rewrite Hi, Hf.
    destruct (Z.ltb_spec 0 (sem b)); [eauto|lia].
  - destruct (count_if_pos is_in_flight (tasks b)) as (i & t & Hi & Ht).
    { unfold in_flight in Hfl. lia. }
    destruct t as [|task_id|]; try done.
    destruct (lookup_lt_is_Some_2 files i) as [file_info Hf].
    { rewrite <- Hlen. by eapply lookup_lt_Some. }
    exists (Complete i). simpl. rewrite Hi, Hf.
    destruct (download_with_progress_body _ _ _ _ _). eauto.
Qed.

End batch.

Lemma effective_limit_nonzero config n :
  n ≠ 0 → effective_limit config (Some n) = n.
Proof. intros Hn. unfold effective_limit. destruct (Z.eqb_spec n 0); done. Qed.

(** C2.  Started with a limit [N >= 1], the batch never has more than
    [N] transfers inside the [async with semaphore] block, in whatever
    state a schedule has brought it and however many records there are;
    and right after a transfer completes, every record still waiting is
    allowed to start. *)
Theorem concurrency_ceiling config files N envs w sched b :
  1 ≤ N →
  run config files envs sched
    (batch_init (effective_limit config (Some N)) files w) = Some b →
  Z.of_nat (in_flight b) ≤ N
  ∧ ∀ i b', step config files envs (Complete i) b = Some b' →
            ∀ j, tasks b' !! j = Some Pending →
                 is_Some (step config files envs (Acquire j) b').
Proof.
  intros HN. rewrite effective_limit_nonzero by lia. intros Hrun.
  pose proof (run_inv config files envs N sched _ _
                (batch_init_inv files envs N w ltac:(lia)) Hrun) as Hinv.
  split; [destruct Hinv; lia|].
  intros i b' Hstep j Hj.
  pose proof (step_inv config files envs N _ _ _ Hinv Hstep) as [Hlen' _ _ _].
  assert (1 ≤ sem b') as Hsem.
  { destruct Hinv as [_ _ Hsem _]. simpl in Hstep.
    destruct (tasks b !! i) as [[]|]; try done.
    destruct (files !! i); [|done].
    destruct (download_with_progress_body _ _ _ _ _). simplify_eq. simpl. lia. }
  simpl. rewrite Hj.
  destruct (lookup_lt_is_Some_2 files j) as [file_info ->].
  { rewrite <- Hlen'. by eapply lookup_lt_Some. }
  destruct (0 <? sem b') eqn:E; [eauto|lia].
Qed.

Lemma concurrency_ceiling_witness :
  ∃ b, run sample_config sample_files sample_envs [Acquire 0; Acquire 2]%nat
         (batch_init (effective_limit sample_config (Some 2)) sample_files empty_world)
       = Some b
       ∧ (Z.of_nat (in_flight b) ≤ 2
          ∧ ∀ i b', step sample_config sample_files sample_envs (Complete i) b = Some b' →
                    ∀ j, tasks b' !! j = Some Pending →
                         is_Some (step sample_config sample_files sample_envs (Acquire j) b')).
Proof.
  eexists. split; [vm_compute; reflexivity|].
  apply (concurrency_ceiling sample_config sample_files 2 sample_envs empty_world
           [Acquire 0; Acquire 2]%nat); [lia|vm_compute; reflexivity].
Defined.

Lemma download_files_returns config files max_concurrent envs sched w r w' :
  download_files config files max_concurrent envs sched w = Some (Returned r, w') →
  (files = [] ∧ sched = [] ∧ r = {| success := 0; failed := 0 |} ∧ w' = w)
  ∨ (files ≠ [] ∧ 0 ≤ effective_limit config max_concurrent
     ∧ ∃ b, run config files envs sched
              (batch_init (effective_limit config max_concurrent) files w) = Some b
            ∧ all_done b = true
            ∧ r = tally (tasks b) {| success := 0; failed := 0 |}
            ∧ w' = bw b).
Proof.
  unfold download_files. destruct files as [|f files'].
  - destruct sched; [|done]. intros [= <- <-]. by left.
  - destruct (effective_limit config max_concurrent <? 0) eqn:E.
    { by destruct sched. }
    destruct (run _ _ _ _ _) as [b|] eqn:Hrun; [|done].
    destruct (all_done b) eqn:Hdone; [|done].
    intros [= <- <-]. right. split; [done|]. split; [lia|]. eauto.
Qed.

(** What a batch over a non-empty list returns is the tally of the
    environments, whatever the schedule. *)
Lemma download_files_result config files max_concurrent envs sched w o w' :
  0 ≤ effective_limit config max_concurrent →
  download_files config files max_concurrent envs sched w = Some (o, w') →
  o = Returned
        {| success := Z.of_nat (succeeding envs (length files));
           failed := Z.of_nat (length files - succeeding envs (length files)) |}
  ∧ ∀ i, (i < length files)%nat → attempts i sched = 1%nat.
Proof.
  intros Hn Hd. destruct o as [r|e].
  - apply download_files_returns in Hd
      as [(-> & -> & -> & ->)|(Hne & _ & b & Hrun & Hdone & -> & ->)].
    + split; [done|]. simpl. lia.
    + destruct (complete_run_successes config files envs _ _ _ _ Hn Hrun Hdone)
        as [Hcount Hlen].
      split.
      * rewrite tally_count, Hcount, Hlen. simpl. done.
      * intros i Hi. by eapply complete_run_once.
  - exfalso. unfold download_files in Hd. destruct files; [by destruct sched|].
    destruct (effective_limit config max_concurrent <? 0) eqn:E; [lia|].
    destruct (run _ _ _ _ _) as [b|]; [|done]. by destruct (all_done b).
Qed.

Lemma download_files_sequential config files max_concurrent envs w :
  1 ≤ effective_limit config max_concurrent →
  ∃ r w', download_files config files max_concurrent envs
            (sequential 0 (length files)) w = Some (Returned r, w').
Proof.
  intros Hn.
  destruct (complete_schedule_exists config files envs _ w Hn) as (b & Hrun & Hdone).
  unfold download_files. destruct files as [|f files']; [by eauto|].
  destruct (effective_limit config max_concurrent <? 0) eqn:E; [lia|].
  rewrite Hrun, Hdone. eauto.
Qed.

(** C3, as stated, fails for a limit below one.  The limit is not
    checked: with a limit of zero the semaphore starts without a permit
    and no schedule lets the batch return, so that no record is ever
    attempted; with a negative limit [asyncio.Semaphore] raises
    [ValueError] out of [download_files] before any record is
    attempted. *)
Lemma batch_failure_isolation_counterexample :
  (∀ sched, download_files zero_limit_config sample_files None sample_envs sched
              empty_world = None)
  ∧ download_files sample_config sample_files (Some (-1)) sample_envs [] empty_world
    = Some (Raised (ValueError "Semaphore initial value must be >= 0"), empty_world)
  ∧ ∀ sched r w',
      download_files sample_config sample_files (Some (-1)) sample_envs sched empty_world
      ≠ Some (Returned r, w').
Proof.
  split; [|split].
  - intros [|[i|i] rest]; [reflexivity| |];
      destruct i as [|[|[|i]]]; reflexivity.
  - reflexivity.
  - intros [|ev rest] r w'; discriminate.
Qed.

(** C3, amended.  With a limit of at least one, a batch has complete executions,
    and each of them transfers every record exactly once and returns,
    never raises: [success] is the number of records whose transfer went
    through and [failed] the number of all others, whether their attempt
    returned [False] or raised.  In particular one failing record among
    [M] gives [success = M - 1] and [failed = 1]. *)
Theorem batch_failure_isolation config files max_concurrent envs w :
  1 ≤ effective_limit config max_concurrent →
  (∃ sched r w',
     download_files config files max_concurrent envs sched w = Some (Returned r, w'))
  ∧ ∀ sched o w',
      download_files config files max_concurrent envs sched w = Some (o, w') →
      o = Returned
            {| success := Z.of_nat (succeeding envs (length files));
               failed := Z.of_nat (length files - succeeding envs (length files)) |}
      ∧ (∀ i, (i < length files)%nat → attempts i sched = 1%nat)
      ∧ ((length files - succeeding envs (length files) = 1)%nat →
         o = Returned {| success := Z.of_nat (length files) - 1; failed := 1 |}).
Proof.
  intros Hn. split.
  - eexists. by apply download_files_sequential.
  - intros sched o w' Hd.
    assert (0 ≤ effective_limit config max_concurrent) as Hn0 by lia.
    destruct (download_files_result _ _ _ _ _ _ _ _ Hn0 Hd) as [-> Honce].
    split; [done|]. split; [done|].
    intros Hone. f_equal. f_equal; lia.
Qed.

Lemma batch_failure_isolation_witness :
  (∃ sched r w',
     download_files sample_config sample_files (Some 2) sample_envs_raising sched
       empty_world = Some (Returned r, w'))
  ∧ ∀ sched o w',
      download_files sample_config sample_files (Some 2) sample_envs_raising sched
        empty_world = Some (o, w') →
      o = Returned
            {| success := Z.of_nat (succeeding sample_envs_raising (length sample_files));
               failed := Z.of_nat (length sample_files
                                   - succeeding sample_envs_raising (length sample_files)) |}
      ∧ (∀ i, (i < length sample_files)%nat → attempts i sched = 1%nat)
      ∧ ((length sample_files
          - succeeding sample_envs_raising (length sample_files) = 1)%nat →
         o = Returned {| success := Z.of_nat (length sample_files) - 1; failed := 1 |}).
Proof.
  apply (batch_failure_isolation sample_config sample_files (Some 2) sample_envs_raising
           empty_world).
  vm_compute. discriminate.
Defined.

Example batch_with_raising_attempt :
  fst <$> download_files sample_config sample_files (Some 2) sample_envs_raising
            [Acquire 1; Acquire 0; Complete 1; Acquire 2; Complete 2; Complete 0]%nat
            empty_world
  = Some (Returned {| success := 2; failed := 1 |}).
Proof. vm_compute. reflexivity. Qed.

(** C9.  The empty batch returns [{success: 0, failed: 0}] at once and
    leaves the world, log included, as it was; and whatever a batch over
    [M] records returns, [success + failed = M]. *)
Theorem batch_counts_every_record config files max_concurrent envs w :
  download_files config [] max_concurrent envs [] w
  = Some (Returned {| success := 0; failed := 0 |}, w)
  ∧ ∀ sched r w',
      download_files config files max_concurrent envs sched w = Some (Returned r, w') →
      success r + failed r = Z.of_nat (length files)
      ∧ (files = [] → r = {| success := 0; failed := 0 |} ∧ w' = w ∧ sched = []).
Proof.
  split; [done|]. intros sched r w' Hd.
  pose proof Hd as Hd'.
  apply download_files_returns in Hd'
    as [(-> & -> & -> & ->)|(Hne & Hn & _)]; [done|].
  split; [|done].
  destruct (download_files_result _ _ _ _ _ _ _ _ Hn Hd) as [[= ->] _]. simpl.
  pose proof (count_if_le (λ i, transfer_succeeds (envs i)) (seq 0 (length files))) as Hle.
  rewrite length_seq in Hle. unfold succeeding. lia.
Qed.

Lemma batch_counts_every_record_witness :
  ∃ r w',
    download_files sample_config sample_files (Some 2) sample_envs
      [Acquire 1; Acquire 0; Complete 1; Acquire 2; Complete 2; Complete 0]%nat
      empty_world = Some (Returned r, w')
    ∧ success r + failed r = Z.of_nat (length sample_files)
    ∧ (sample_files = [] → r = {| success := 0; failed := 0 |} ∧ w' = empty_world
       ∧ [Acquire 1; Acquire 0; Complete 1; Acquire 2; Complete 2; Complete 0]%nat = []).
Proof.
  do 2 eexists. split; [vm_compute; reflexivity|].
  apply (proj2 (batch_counts_every_record sample_config sample_files (Some 2) sample_envs
                  empty_world)
           [Acquire 1; Acquire 0; Complete 1; Acquire 2; Complete 2; Complete 0]%nat).
  vm_compute. reflexivity.
Defined.

(** ** Date validation *)









(** *** What [validate_date_format] lets through *)
















(** ** Listing *)

(** C4, as stated, fails: a listing fetch answered with status 500 is
    not raised as an error; it returns the empty listing, as a 404
    does. *)
Lemma listing_server_error_is_empty_listing :
  let r := list_available_files sample_config sample_address
             (Returned {| l_status := 500; l_text := Returned "Internal Server Error" |})
             empty_world in
  r.1 = Returned [] ∧ ¬ (∃ e, r.1 = Raised e).
Proof. vm_compute. split; [reflexivity|]. intros [e He]. discriminate He. Qed.

(** C4, amended.  For a listing fetch with an accepted date that the
    server answers with a status: 404 returns the empty listing and
    raises nothing; any other status of 400 and above also returns the
    empty listing and raises nothing, after the error has been reported
    on the console; a status below 400 has its body decoded and parsed,
    and only there can something that is not an [aiohttp.ClientError]
    propagate. *)
Theorem listing_status_handling config a status text w :
  validate_date_format (a_date a) = true →
  list_available_files config a (Returned {| l_status := status; l_text := text |}) w
  = let w1 := emit (HttpGet (listing_url config a)) w in
    if status =? 404 then
      (Returned [], emit (Console (NoDataAvailable a)) w1)
    else if 400 <=? status then
      (Returned [],
       emit (Console (ErrorAccessing (listing_url config a) (ClientResponseError status))) w1)
    else
      absorb_client_error (listing_url config a)
        (match text with
         | Returned content => _parse_data_files (base_url config) content a
         | Raised e => Raised e
         end) w1.
Proof.
  intros Hvalid. unfold list_available_files, try_except, session_get, raise_for_status,
    absorb_client_error, listing_url.
  rewrite Hvalid. unfold_M. simpl.
  destruct (status =? 404); [done|].
  destruct (400 <=? status); simpl; [done|].
  destruct text as [content|e]; simpl; [|done].
  by destruct (_parse_data_files _ _ _) as [files|e].
Qed.

Lemma listing_status_handling_witness :
  list_available_files sample_config sample_address
    (Returned {| l_status := 404; l_text := Returned "Not Found" |}) empty_world
  = (Returned [],
     emit (Console (NoDataAvailable sample_address))
       (emit (HttpGet (listing_url sample_config sample_address)) empty_world)).
Proof.
  apply (listing_status_handling sample_config sample_address 404 (Returned "Not Found")
           empty_world).
  reflexivity.
Defined.




(** ** File names: kind and forecast hour *)

Lemma endswith_cons c s suf :
  PyStr.endswith (String c s) suf = String.eqb (String c s) suf || PyStr.endswith s suf.
Proof. cbn [PyStr.endswith]. by destruct (String.eqb (String c s) suf). Qed.

(** A name ends with a dot and the dot-free extension [e] exactly when
    [e] is what follows its last dot. *)
Lemma endswith_suffix_of e : suffix_of e = None →
  ∀ name, PyStr.endswith name ("." +:+ e) = true ↔ suffix_of name = Some e.
Proof.
  intros He name. induction name as [|c rest IH].
  - simpl. split; done.
  - rewrite endswith_cons. cbn [suffix_of].
    rewrite orb_true_iff, IH. split.
    + intros [Heq | Hrest].
      * apply String.eqb_eq in Heq. injection Heq as Hc Hr.
        change (EmptyString +:+ e) with e in Hr. by rewrite Hr, He, Hc.
      * by rewrite Hrest.
    + destruct (suffix_of rest) as [e'|] eqn:Hs.
      * intros [= ->]. by right.
      * destruct (Ascii.eqb_spec c "."); [|done].
        intros [= ->]. left. subst c. apply String.eqb_refl.
Qed.

(** [_get_file_type] looks at nothing but the text after the last dot,
    and classifies it by the precedence table. *)
Lemma get_file_type_by_suffix name :
  _get_file_type name = kind_of_suffix (suffix_of name).
Proof.
  unfold _get_file_type, kind_of_suffix.
  pose proof (endswith_suffix_of "grib" eq_refl name) as Hgrib.
  pose proof (endswith_suffix_of "grib2" eq_refl name) as Hgrib2.
  pose proof (endswith_suffix_of "nc" eq_refl name) as Hnc.
  pose proof (endswith_suffix_of "netcdf" eq_refl name) as Hnetcdf.
  pose proof (endswith_suffix_of "idx" eq_refl name) as Hidx.
  change ("." +:+ "grib") with ".grib" in Hgrib.
  change ("." +:+ "grib2") with ".grib2" in Hgrib2.
  change ("." +:+ "nc") with ".nc" in Hnc.
  change ("." +:+ "netcdf") with ".netcdf" in Hnetcdf.
  change ("." +:+ "idx") with ".idx" in Hidx.
  destruct (suffix_of name) as [e|].
  - assert (∀ suf lit, (PyStr.endswith name suf = true ↔ Some e = Some lit) →
                       PyStr.endswith name suf = String.eqb e lit) as Hrw.
    { intros suf lit H. destruct (String.eqb_spec e lit) as [->|Hne].
      - by apply H.
      - destruct (PyStr.endswith name suf); [|done].
        destruct H as [H _]. specialize (H eq_refl). congruence. }
    by rewrite (Hrw _ _ Hgrib), (Hrw _ _ Hgrib2), (Hrw _ _ Hnc), (Hrw _ _ Hnetcdf),
      (Hrw _ _ Hidx).
  - assert (∀ suf (lit : string), (PyStr.endswith name suf = true ↔ None = Some lit) →
                       PyStr.endswith name suf = false) as Hrw.
    { intros suf lit H. destruct (PyStr.endswith name suf); [|done].
      destruct H as [H _]. by specialize (H eq_refl). }
    by rewrite (Hrw _ _ Hgrib), (Hrw _ _ Hgrib2), (Hrw _ _ Hnc), (Hrw _ _ Hnetcdf),
      (Hrw _ _ Hidx).
Qed.

Lemma parse_matches_each base_url a : ∀ matches files,
  parse_matches base_url a matches = Returned files →
  Forall2 (λ m r, file_info_of base_url a m = Returned r) matches files.
Proof.
  induction matches as [|m matches IH]; intros files H; simpl in H.
  - simplify_eq. constructor.
  - destruct (file_info_of base_url a m) as [r|e] eqn:Hm; [|done].
    destruct (parse_matches base_url a matches) as [rs|e]; [|done].
    simplify_eq. constructor; [done|]. by apply IH.
Qed.

(** Every record of a listing comes from one match of the pattern: its
    filename is the matched name stripped, its kind and its forecast
    hour are computed from the matched name as it stands. *)
Lemma parsed_record_fields config_base_url html a files :
  _parse_data_files config_base_url html a = Returned files →
  Forall2 (λ m r,
             fi_filename r = PyStr.strip (m_filename m)
             ∧ fi_type r = kind_of_suffix (suffix_of (m_filename m))
             ∧ fi_forecast_hour r = forecast_hour_of (m_filename m)
             ∧ fi_raw_size r = PyStr.int_of_digits (m_size m)
             ∧ _format_file_size (fi_raw_size r) = Returned (fi_size r))
          (findall_file_pattern html) files.
Proof.
  intros H. apply parse_matches_each in H.
  eapply Forall2_impl; [exact H|]. intros m r Hr. simpl in Hr.
  unfold file_info_of in Hr.
  destruct (_format_file_size _) as [size|e] eqn:Hsize; [|done].
  simplify_eq. simpl. by rewrite get_file_type_by_suffix.
Qed.

(** C5.  The listing whose one anchor text carries a trailing space
    yields a record with filename [a.grib2] and kind [Unknown], although
    the suffix of that filename is [grib2], for which the table says
    [GRIB]; without the space the same filename has kind [GRIB].  The
    kind of a record is computed from the anchor text before it is
    stripped, the filename after. *)
Theorem record_kind_ignores_strip :
  names_and_kinds
    (_parse_data_files (base_url sample_config)
       (page_with_entry "a.grib2" "a.grib2 ") sample_address)
  = Returned [("a.grib2", Unknown)]
  ∧ names_and_kinds
      (_parse_data_files (base_url sample_config)
         (page_with_entry "a.grib2" "a.grib2") sample_address)
    = Returned [("a.grib2", GRIB)]
  ∧ kind_of_suffix (suffix_of "a.grib2") = GRIB.
Proof. vm_compute. done. Qed.

Lemma all_digits_cons c s :
  PyStr.all_digits (String c s) = PyStr.is_digit c && PyStr.all_digits s.
Proof. reflexivity. Qed.

Lemma span_digits_spec s : ∀ ds rest,
  PyStr.span PyStr.is_digit s = (ds, rest) →
  s = ds +:+ rest ∧ PyStr.all_digits ds = true.
Proof.
  induction s as [|c s IH]; intros ds rest H; simpl in H.
  - by simplify_eq.
  - destruct (PyStr.is_digit c) eqn:Hc.
    + destruct (PyStr.span PyStr.is_digit s) as [a b]. simplify_eq.
      destruct (IH _ _ eq_refl) as [-> Ha].
      rewrite all_digits_cons, Hc, Ha. done.
    + by simplify_eq.
Qed.

(** Greedy and exact: a run of digits followed by [h] is what [span]
    takes. *)
Lemma span_digits_app ds post :
  PyStr.all_digits ds = true →
  PyStr.span PyStr.is_digit (ds +:+ "h-" +:+ post) = (ds, "h-" +:+ post).
Proof.
  induction ds as [|c ds IH]; intros Hd.
  - reflexivity.
  - rewrite all_digits_cons in Hd. apply andb_prop in Hd as [Hc Hd].
    rewrite app_cons. simpl. rewrite Hc, IH by done. done.
Qed.

Lemma startswith_spec pre : ∀ s,
  PyStr.startswith pre s = true ↔ ∃ post, s = pre +:+ post.
Proof.
  induction pre as [|a pre IH]; intros s; simpl.
  - split; [eauto|done].
  - destruct s as [|b s].
    + split; [done|]. by intros [post H].
    + rewrite andb_true_iff, IH. split.
      * intros [Hab%Ascii.eqb_eq [post ->]]. subst. by exists post.
      * intros [post H]. rewrite app_cons in H. injection H as -> ->.
        split; [apply Ascii.eqb_refl|eauto].
Qed.

Lemma match_hour_at_cons c rest :
  match_hour_at (String c rest)
  = if Ascii.eqb c "-" then
      let '(ds, rest') := PyStr.span PyStr.is_digit rest in
      if negb (String.eqb ds EmptyString) && PyStr.startswith "h-" rest'
      then Some ds else None
    else None.
Proof. by destruct c as [[] [] [] [] [] [] [] []]. Qed.

(** [match_hour_at] succeeds exactly on the names that begin with the
    pattern, and returns its digits. *)
Lemma match_hour_at_spec s ds :
  match_hour_at s = Some ds ↔ ∃ post, hour_pattern_at s EmptyString ds post.
Proof.
  unfold hour_pattern_at. destruct s as [|c rest].
  - split; [done|]. by intros (post & H & _).
  - rewrite match_hour_at_cons. split.
    + destruct (Ascii.eqb_spec c "-") as [->|]; [|done].
      destruct (PyStr.span PyStr.is_digit rest) as [ds' rest'] eqn:Hspan.
      apply span_digits_spec in Hspan as [-> Hd].
      destruct (String.eqb_spec ds' EmptyString) as [|Hne]; [done|]. cbn [negb andb].
      destruct (PyStr.startswith "h-" rest') eqn:Hh; [|done].
      apply startswith_spec in Hh as [post ->]. intros [= <-].
      exists post. done.
    + intros (post & H & Hne & Hd). rewrite app_empty_l in H.
      change ("-" +:+ ds +:+ "h-" +:+ post) with (String "-" (ds +:+ "h-" +:+ post)) in H.
      injection H as -> ->. simpl.
      rewrite span_digits_app by done.
      destruct (String.eqb_spec ds EmptyString); [done|]. simpl.
      done.
Qed.

Lemma hour_pattern_at_cons c s pre ds post :
  hour_pattern_at (String c s) (String c pre) ds post ↔ hour_pattern_at s pre ds post.
Proof.
  unfold hour_pattern_at. rewrite app_cons. split.
  - intros ([= ->] & ? & ?). done.
  - intros (-> & ? & ?). done.
Qed.

(** [search_hour] finds the leftmost occurrence of the pattern and
    returns its digits; it finds none only when there is none. *)
Lemma search_hour_spec s :
  match search_hour s with
  | Some ds =>
      ∃ pre post, hour_pattern_at s pre ds post
        ∧ ∀ pre' ds' post', hour_pattern_at s pre' ds' post' →
                            (String.length pre ≤ String.length pre')%nat
  | None => ∀ pre ds post, ¬ hour_pattern_at s pre ds post
  end.
Proof.
  induction s as [|c s IH].
  - simpl. intros pre ds post (H & _).
    destruct pre; discriminate H.
  - cbn [search_hour].
    destruct (match_hour_at (String c s)) as [ds|] eqn:Hm.
    + apply match_hour_at_spec in Hm as [post Hp].
      exists EmptyString, post. split; [done|]. intros; simpl; lia.
    + assert (∀ ds post, ¬ hour_pattern_at (String c s) EmptyString ds post) as Hno.
      { intros ds post Hp.
        assert (match_hour_at (String c s) = Some ds) as Hs
          by (apply match_hour_at_spec; eauto).
        congruence. }
      assert (∀ pre ds post, hour_pattern_at (String c s) pre ds post →
                ∃ pre', pre = String c pre' ∧ hour_pattern_at s pre' ds post) as Hshift.
      { intros [|c' pre'] ds post Hp; [by apply Hno in Hp|].
        pose proof Hp as (Heq & _). rewrite app_cons in Heq. injection Heq as ->.
        exists pre'. split; [done|]. by apply hour_pattern_at_cons in Hp. }
      destruct (search_hour s) as [ds|].
      * destruct IH as (pre & post & Hp & Hleft).
        exists (String c pre), post. split; [by apply hour_pattern_at_cons|].
        intros pre' ds' post' Hp'.
        apply Hshift in Hp' as (pre'' & -> & Hp'').
        specialize (Hleft _ _ _ Hp''). simpl. lia.
      * intros pre ds post Hp. apply Hshift in Hp as (pre' & -> & Hp').
        by eapply IH.
Qed.

(** C7.  For every record of a listing, [forecast_hour] is found by
    searching the matched name for a hyphen, digits and [h-]: when the
    name contains the pattern the value is the digit string of its
    leftmost occurrence, and when it does not the value is [unknown];
    [20250617120000-6h-oper-fc.grib2] gives [6]. *)
Theorem forecast_hour_extraction config_base_url html a files :
  _parse_data_files config_base_url html a = Returned files →
  Forall2 (λ m r,
             (∃ pre ds post,
                hour_pattern_at (m_filename m) pre ds post
                ∧ fi_forecast_hour r = ds
                ∧ ∀ pre' ds' post', hour_pattern_at (m_filename m) pre' ds' post' →
                                    (String.length pre ≤ String.length pre')%nat)
             ∨ ((∀ pre ds post, ¬ hour_pattern_at (m_filename m) pre ds post)
                ∧ fi_forecast_hour r = "unknown"))
          (findall_file_pattern html) files
  ∧ forecast_hour_of "20250617120000-6h-oper-fc.grib2" = "6".
Proof.
  intros H. split; [|reflexivity].
  apply parsed_record_fields in H.
  eapply Forall2_impl; [exact H|]. intros m r (_ & _ & -> & _).
  unfold forecast_hour_of.
  pose proof (search_hour_spec (m_filename m)) as Hs.
  destruct (search_hour (m_filename m)) as [ds|].
  - left. destruct Hs as (pre & post & Hp & Hleft). by exists pre, ds, post.
  - right. done.
Qed.

Lemma forecast_hour_extraction_witness :
  Forall2 (λ m r,
             (∃ pre ds post,
                hour_pattern_at (m_filename m) pre ds post
                ∧ fi_forecast_hour r = ds
                ∧ ∀ pre' ds' post', hour_pattern_at (m_filename m) pre' ds' post' →
                                    (String.length pre ≤ String.length pre')%nat)
             ∨ ((∀ pre ds post, ¬ hour_pattern_at (m_filename m) pre ds post)
                ∧ fi_forecast_hour r = "unknown"))
          (findall_file_pattern
             (page_with_entry "20250617120000-6h-oper-fc.grib2"
                "20250617120000-6h-oper-fc.grib2"))
          [ {| fi_filename := "20250617120000-6h-oper-fc.grib2";
               fi_url := urljoin "https://data.ecmwf.int/forecasts/20250617/12z/ifs/0p25/oper/"
                           "20250617120000-6h-oper-fc.grib2";
               fi_date := "20250617"; fi_forecast_time := "12z"; fi_model := "ifs";
               fi_resolution := "0p25"; fi_data_type := "oper";
               fi_forecast_hour := "6"; fi_size := "1.5 KB"; fi_raw_size := 1536;
               fi_type := GRIB; fi_modified := "17-06-2025 12:00" |} ]
  ∧ forecast_hour_of "20250617120000-6h-oper-fc.grib2" = "6".
Proof.
  apply (forecast_hour_extraction (base_url sample_config)
           (page_with_entry "20250617120000-6h-oper-fc.grib2"
              "20250617120000-6h-oper-fc.grib2")
           sample_address).
  vm_compute. reflexivity.
Defined.

(** ** Size formatting *)

Lemma round_to_double_exact n : 0 ≤ n < 2 ^ 53 → round_to_double n = n.
Proof.
  intros [H0 H53]. unfold round_to_double.
  assert (Z.log2 n < 53) as Hlog.
  { destruct (Z.eq_dec n 0) as [->|]; [done|]. apply Z.log2_lt_pow2; lia. }
  destruct (Z.leb_spec (Z.log2 n + 1) 53); [done|lia].
Qed.

Lemma float_of_int_exact n :
  0 ≤ n < 2 ^ 53 → float_of_int n = Returned (inject_Z n).
Proof.
  intros Hn. unfold float_of_int.
  rewrite Z.abs_eq, round_to_double_exact by lia.
  assert (2 ^ 53 < 2 ^ 1024) by (apply Z.pow_lt_mono_r; lia).
  destruct (Z.leb_spec (2 ^ 1024) n); [lia|].
  do 2 f_equal. destruct (Z.sgn_spec n) as [[? ->]|[[? ->]|[? ->]]]; lia.
Qed.

Lemma truediv_1024_exact n :
  0 ≤ n < 2 ^ 53 →
  truediv_1024 (PyInt n) = Returned (PyFloat (inject_Z n / 1024)).
Proof.
  intros Hn. unfold truediv_1024.
  rewrite Z.abs_eq, round_to_double_exact by lia.
  assert (2 ^ 53 < 2 ^ 1034) by (apply Z.pow_lt_mono_r; lia).
  destruct (Z.leb_spec (2 ^ 1034) n); [lia|].
  do 4 f_equal. destruct (Z.sgn_spec n) as [[? ->]|[[? ->]|[? ->]]]; lia.
Qed.

(** C6, as stated, fails for sizes that a double cannot hold exactly.  A
    size of [2 ^ 1034] makes the first division raise [OverflowError], so
    that no size string is produced; and 9007254230322381 bytes are
    shown as [8192.0 TB] although the size divided four times by 1024 is
    above 8192.05 and shows as [8192.1 TB] with one decimal place. *)
Lemma format_file_size_counterexample :
  _format_file_size (2 ^ 1034) = Raised OverflowError
  ∧ _format_file_size 9007254230322381 = Returned "8192.0 TB"
  ∧ human_size_spec 9007254230322381 = "8192.1 TB".
Proof. vm_compute. done. Qed.

(** C6, amended.  For every size from 0 up to (not including) [2 ^ 53],
    the sizes a double holds exactly, [_format_file_size] returns the
    size divided by 1024 from unit to unit through B, KB, MB, GB, shown
    with one decimal place at the first unit where the running value is
    below 1024, and in TB when there is none; 1536 gives [1.5 KB], 500
    gives [500.0 B] and 1073741824 gives [1.0 GB]. *)
Theorem format_file_size_exact :
  (∀ n, 0 ≤ n < 2 ^ 53 → _format_file_size n = Returned (human_size_spec n))
  ∧ _format_file_size 1536 = Returned "1.5 KB"
  ∧ _format_file_size 500 = Returned "500.0 B"
  ∧ _format_file_size 1073741824 = Returned "1.0 GB".
Proof.
  split; [|by vm_compute].
  intros n Hn. unfold _format_file_size, human_size_spec, selected_unit.
  cbn [format_units List.find].
  change (running_value n 0) with (inject_Z n).
  change (running_value n 1) with (inject_Z n / 1024)%Q.
  change (running_value n 2) with (inject_Z n / 1024 / 1024)%Q.
  change (running_value n 3) with (inject_Z n / 1024 / 1024 / 1024)%Q.
  assert (num_lt_1024 (PyFloat (inject_Z n)) = num_lt_1024 (PyInt n)) as ->.
  { simpl. by rewrite Z.mul_1_r. }
  destruct (num_lt_1024 (PyInt n)).
  - unfold format_1f. rewrite float_of_int_exact by done. done.
  - rewrite truediv_1024_exact by done.
    cbn [format_units format_1f truediv_1024].
    repeat (match goal with
            | |- context [num_lt_1024 (PyFloat ?q)] =>
                destruct (num_lt_1024 (PyFloat q)); [done|]
            end;
            cbn [format_units format_1f truediv_1024]).
    done.
Qed.

Lemma format_file_size_exact_witness :
  _format_file_size 1536 = Returned (human_size_spec 1536).
Proof.
  apply (proj1 format_file_size_exact 1536). split; [lia|reflexivity].
Defined.

(** The unit selected for a size is read off four thresholds. *)
Lemma selected_unit_thresholds n :
  selected_unit n
  = if n <? 1024 then 0%nat
    else if n <? 1024 ^ 2 then 1%nat
    else if n <? 1024 ^ 3 then 2%nat
    else if n <? 1024 ^ 4 then 3%nat
    else 4%nat.
Proof.
  unfold selected_unit. cbn [List.find].
  change (running_value n 0) with (inject_Z n).
  change (running_value n 1) with (inject_Z n / 1024)%Q.
  change (running_value n 2) with (inject_Z n / 1024 / 1024)%Q.
  change (running_value n 3) with (inject_Z n / 1024 / 1024 / 1024)%Q.
  unfold num_lt_1024. cbn [Qnum Qden inject_Z Qdiv Qmult Qinv Z.sgn].
  change (Z.pos (1 * 1024 * 1024 * 1024)) with (1024 ^ 3).
  change (Z.pos (1 * 1024 * 1024)) with (1024 ^ 2).
  change (Z.pos (1 * 1024)) with 1024.
  change (1024 * 1024 ^ 3) with (1024 ^ 4).
  change (1024 * 1024 ^ 2) with (1024 ^ 3).
  change (1024 * 1024) with (1024 ^ 2).
  change (1024 * 1) with 1024.
  rewrite !Z.mul_1_r.
  destruct (n <? 1024); [done|].
  destruct (n <? 1024 ^ 2); [done|].
  destruct (n <? 1024 ^ 3); [done|].
  by destruct (n <? 1024 ^ 4).
Qed.

(* ================================================================== *)
(** * Further properties *)

(** ** Transfer of one file: what ends up on disk *)

Lemma stream_to_file_written body target task_id total : ∀ downloaded w old,
  files w !! target = Some old →
  ∃ w', stream_to_file body target task_id total downloaded w
        = (match body_failure body with Some e => Raised e | None => Returned tt end, w')
        ∧ files w' !! target = Some (old ++ written_before_failure body)%list.
Proof.
  induction body as [|[data [e|]|e] rest IH]; intros downloaded w old Hold;
    simpl; unfold_M; unfold write_chunk.
  - exists w. by rewrite app_nil_r.
  - exists w. by rewrite app_nil_r.
  - assert (∀ w0, files w0 = <[target := (old ++ data)%list]> (files w) →
              files w0 !! target = Some (old ++ data)%list) as Hins
      by (intros w0 ->; apply lookup_insert_eq).
    rewrite Hold. simpl.
    destruct (0 <? total); simpl.
    all: match goal with
         | |- context [stream_to_file _ _ _ _ ?d ?w0] =>
             destruct (IH d w0 (old ++ data)%list (Hins w0 eq_refl)) as (w' & -> & Hw')
         end.
    all: exists w'; split; [by destruct (body_failure rest)|].
    all: by rewrite Hw', <- app_assoc.
  - exists w. by rewrite app_nil_r.
Qed.

(** The [try] block once the response is in, its status is below 400,
    its length is readable and the file can be opened. *)
Lemma download_file_try_streams config file_info task_id env w resp total :
  e_get env = Returned resp →
  r_status resp < 400 →
  total_size_of resp = Returned total →
  e_open env = None →
  ∃ w', download_file_try config file_info task_id env w
        = (match body_failure (r_body resp) with
           | Some e => Raised e
           | None => Returned true
           end, w')
        ∧ files w' !! output_path_of config file_info
          = Some (written_before_failure (r_body resp)).
Proof.
  intros Hget Hstatus Htotal Hopen.
  unfold download_file_try, session_get, raise_for_status, open_wb. unfold_M.
  rewrite Hget, Htotal, Hopen. simpl.
  destruct (400 <=? r_status resp) eqn:E; [lia|]. simpl.
  destruct (0 <? total); simpl.
  all: match goal with
       | |- context [stream_to_file ?b ?t ?i ?tot ?d ?w0] =>
           destruct (stream_to_file_written b t i tot d w0 [])
             as (w' & -> & Hw'); [by simpl; rewrite lookup_insert_eq|]
       end.
  all: destruct (body_failure (r_body resp)); simpl; eexists; split; try done.
Qed.

Lemma written_all_bytes body :
  body_failure body = None → written_before_failure body = all_bytes body.
Proof.
  induction body as [|[data [e|]|e] rest IH]; simpl; try done.
  intros H. by rewrite IH.
Qed.

Lemma download_file_except_untouched config file_info e w r w' :
  download_file_except config file_info e w = (r, w') →
  untouched (output_path_of config file_info) w w' ∧ dirs w' = dirs w.
Proof.
  unfold download_file_except, path_exists, unlink. unfold_M. simpl.
  destruct (_ || _); simpl.
  - destruct (files w !! output_path_of config file_info) eqn:Hf; simpl;
      intros [= <- <-]; simpl; (split; [|done]).
    + intros q Hq. simpl. by rewrite lookup_delete_ne.
    + by intros q Hq.
  - intros [= <- <-]. split; [by intros q Hq|done].
Qed.

(** X1.  When the environment lets a transfer through, [download_file]
    returns [True] and the destination holds exactly the bytes of the
    response body, in order, whatever was at that path before; no other
    file is changed. *)
Theorem download_file_writes_whole_body config file_info task_id env w resp :
  e_get env = Returned resp →
  transfer_succeeds env = true →
  ∃ w', download_file config file_info task_id env w = (Returned true, w')
        ∧ files w' !! output_path_of config file_info = Some (all_bytes (r_body resp))
        ∧ untouched (output_path_of config file_info) w w'.
Proof.
  intros Hget Hok. unfold transfer_succeeds in Hok. rewrite Hget in Hok.
  destruct (e_mkdir env) eqn:Hmk; [done|].
  destruct (Z.ltb_spec (r_status resp) 400) as [Hstatus|]; [|done].
  destruct (total_size_of resp) as [total|] eqn:Htotal; [|done].
  destruct (e_open env) eqn:Hopen; [done|].
  destruct (body_failure (r_body resp)) eqn:Hbody; [done|].
  unfold download_file, mkdir_parents, try_except. unfold_M. rewrite Hmk.
  match goal with
  | |- context [download_file_try ?c ?f ?t ?en ?w0] =>
      pose proof (preserves_download_file_try c f t en w0) as Hpres;
      destruct (download_file_try_streams c f t en w0 resp total)
        as (w1 & Htry & Hfile); try done
  end.
  rewrite Hbody in Htry. rewrite Htry in *.
  exists w1. split; [done|]. split; [by rewrite Hfile, written_all_bytes|].
  destruct (Hpres _ _ eq_refl) as (Hframe & _). intros q Hq. by rewrite Hframe.
Qed.

Lemma download_file_writes_whole_body_witness :
  ∃ w', download_file sample_config (sample_file "a-6h-oper-fc.grib2") 0 env_complete
          (world_with_file "a-6h-oper-fc.grib2") = (Returned true, w')
        ∧ files w' !! output_path_of sample_config (sample_file "a-6h-oper-fc.grib2")
          = Some [Byte.x47; Byte.x52]
        ∧ untouched (output_path_of sample_config (sample_file "a-6h-oper-fc.grib2"))
            (world_with_file "a-6h-oper-fc.grib2") w'.
Proof.
  apply (download_file_writes_whole_body sample_config (sample_file "a-6h-oper-fc.grib2") 0
           env_complete (world_with_file "a-6h-oper-fc.grib2")
           {| r_status := 200; r_content_length := Some "2";
              r_body := [Chunk [Byte.x47; Byte.x52] None] |}); reflexivity.
Defined.

(** X2.  [except Exception] does not catch a cancellation.  A transfer
    that is cancelled while it streams makes [download_file] raise
    [CancelledError] instead of returning [False], and the file stays at
    the destination with the bytes written so far: the clean-up is
    skipped. *)
Theorem download_file_cancelled_keeps_partial_file
    config file_info task_id env w resp total e :
  e_mkdir env = None →
  e_get env = Returned resp →
  r_status resp < 400 →
  total_size_of resp = Returned total →
  e_open env = None →
  body_failure (r_body resp) = Some e →
  is_Exception e = false →
  ∃ w', download_file config file_info task_id env w = (Raised e, w')
        ∧ files w' !! output_path_of config file_info
          = Some (written_before_failure (r_body resp))
        ∧ untouched (output_path_of config file_info) w w'.
Proof.
  intros Hmk Hget Hstatus Htotal Hopen Hbody Hexc.
  unfold download_file, mkdir_parents, try_except. unfold_M. rewrite Hmk.
  match goal with
  | |- context [download_file_try ?c ?f ?t ?en ?w0] =>
      pose proof (preserves_download_file_try c f t en w0) as Hpres;
      destruct (download_file_try_streams c f t en w0 resp total)
        as (w1 & Htry & Hfile); try done
  end.
  rewrite Hbody in Htry. rewrite Htry in *. rewrite Hexc.
  exists w1. split; [done|]. split; [done|].
  destruct (Hpres _ _ eq_refl) as (Hframe & _). intros q Hq. by rewrite Hframe.
Qed.

Lemma download_file_cancelled_keeps_partial_file_witness :
  ∃ w', download_file sample_config (sample_file "a-6h-oper-fc.grib2") 0 env_cancelled
          empty_world = (Raised CancelledError, w')
        ∧ files w' !! output_path_of sample_config (sample_file "a-6h-oper-fc.grib2")
          = Some [Byte.x47]
        ∧ untouched (output_path_of sample_config (sample_file "a-6h-oper-fc.grib2"))
            empty_world w'.
Proof.
  apply (download_file_cancelled_keeps_partial_file sample_config
           (sample_file "a-6h-oper-fc.grib2") 0 env_cancelled empty_world
           {| r_status := 200; r_content_length := Some "2";
              r_body := [Chunk [Byte.x47] None; StreamRaises CancelledError] |}
           2 CancelledError); reflexivity.
Defined.

(** ** Relations kept by a computation *)

Section respects.

Context (R : relation world) `{!PreOrder R}.

Lemma respects_ret {A} (a : A) : respects R (ret a).
Proof. intros w r w' [= <- <-]. done. Qed.

Lemma respects_raise {A} e : respects R (@raise A e).
Proof. intros w r w' [= <- <-]. done. Qed.

Lemma respects_lift {A} (o : outcome A) : respects R (lift o).
Proof. intros w r w' [= <- <-]. done. Qed.

Lemma respects_tell ev : (∀ w, R w (emit ev w)) → respects R (tell ev).
Proof. intros H w r w' [= <- <-]. apply H. Qed.

Lemma respects_bind {A B} (m : M A) (k : A → M B) :
  respects R m → (∀ a, respects R (k a)) → respects R (m ≫= k).
Proof.
  intros Hm Hk w r w'. unfold_M. destruct (m w) as [[a|e] w1] eqn:E; intros H.
  - etrans; [by eapply Hm | by eapply Hk].
  - simplify_eq. by eapply Hm.
Qed.

(** As [respects_bind], with the continuation looked at only on the
    values that [m] can return. *)
Lemma respects_bind_ret {A B} (m : M A) (k : A → M B) :
  respects R m →
  (∀ a, (∃ w w1, m w = (Returned a, w1)) → respects R (k a)) →
  respects R (m ≫= k).
Proof.
  intros Hm Hk w r w'. unfold_M. destruct (m w) as [[a|e] w1] eqn:E; intros H.
  - etrans; [by eapply Hm | eapply Hk; eauto].
  - simplify_eq. by eapply Hm.
Qed.

Lemma respects_if {A} (c : bool) (m1 m2 : M A) :
  respects R m1 → respects R m2 → respects R (if c then m1 else m2).
Proof. by destruct c. Qed.

Lemma respects_try_except {A} (body : M A) catches handler :
  respects R body → (∀ e, respects R (handler e)) →
  respects R (try_except body catches handler).
Proof.
  intros Hb Hh w r w'. unfold try_except.
  destruct (body w) as [[a|e] w1] eqn:E.
  - intros [= <- <-]. by eapply Hb.
  - destruct (catches e).
    + intros H. etrans; [by eapply Hb | by eapply Hh].
    + intros [= <- <-]. by eapply Hb.
Qed.

Lemma respects_session_get {A} url (answer : outcome A) :
  (∀ w, R w (emit (HttpGet url) w)) → respects R (session_get url answer).
Proof.
  intros H. apply respects_bind; [by apply respects_tell|intros; apply respects_lift].
Qed.

Lemma respects_raise_for_status status : respects R (raise_for_status status).
Proof. apply respects_if; [by apply respects_raise|by apply respects_ret]. Qed.

End respects.

#[global] Instance adds_only_preorder P : PreOrder (adds_only P).
Proof.
  split.
  - intros w. exists []. by rewrite app_nil_r.
  - intros w1 w2 w3 (l1 & H1 & P1) (l2 & H2 & P2). exists (l1 ++ l2)%list.
    rewrite H2, H1, <- app_assoc, forallb_app, P1, P2. done.
Qed.

#[global] Instance fs_frame_preorder target : PreOrder (fs_frame target).
Proof.
  split.
  - intros w. by repeat split.
  - intros w1 w2 w3 (F1 & D1 & L1) (F2 & D2 & L2). repeat split.
    + intros q Hq. by rewrite F2, F1.
    + set_solver.
    + by etrans.
Qed.

#[global] Instance same_fs_preorder : PreOrder same_fs.
Proof.
  split.
  - by intros w.
  - intros w1 w2 w3 [F1 D1] [F2 D2]. split; congruence.
Qed.

Lemma adds_only_emit (P : event → bool) ev w : P ev = true → adds_only P w (emit ev w).
Proof. intros H. exists [ev]. simpl. by rewrite H. Qed.

Lemma fs_frame_emit target ev w : fs_frame target w (emit ev w).
Proof. split_and!; simpl; [by intros q Hq|done|by apply prefix_app_r]. Qed.

Lemma same_fs_emit ev w : same_fs w (emit ev w).
Proof. by split. Qed.

Lemma fs_frame_stream_to_file body target task_id total :
  ∀ downloaded, respects (fs_frame target)
                  (stream_to_file body target task_id total downloaded).
Proof.
  induction body as [|[data wr|e] rest IH]; intros downloaded; simpl.
  - apply respects_ret; apply _.
  - apply respects_bind; [apply _| |intros _].
    + intros w r w'. unfold write_chunk. destruct wr; intros [= <- <-]; [done|].
      split_and!; unfold emit; simpl; [intros q Hq; simpl; by rewrite lookup_insert_ne|done|by apply prefix_app_r].
    + apply respects_bind; [apply _| |intros _; apply IH].
      apply respects_if; [apply respects_tell; intros; apply fs_frame_emit
                         |apply respects_ret; apply _].
  - apply respects_raise; apply _.
Qed.

Lemma respects_download_file config file_info task_id env :
  respects (fs_frame (output_path_of config file_info))
    (download_file config file_info task_id env).
Proof.
  set (p := output_path_of config file_info).
  assert (PreOrder (fs_frame p)) as HR by apply _.
  unfold download_file. fold p.
  apply respects_bind; [done| |intros _].
  { intros w r w'. unfold mkdir_parents. destruct (e_mkdir env); intros [= <- <-]; [done|].
    split_and!; unfold emit; simpl; [by intros q Hq|set_solver|by apply prefix_app_r]. }
  apply respects_try_except; [done| |intros e].
  - unfold download_file_try. fold p.
    apply respects_bind; [done|apply respects_session_get; [done|intros; apply fs_frame_emit]|intros resp].
    apply respects_bind; [done|by apply respects_raise_for_status|intros _].
    apply respects_bind; [done|by apply respects_lift|intros total].
    apply respects_bind; [done| |intros _].
    { apply respects_if; [apply respects_tell; intros; apply fs_frame_emit|by apply respects_ret]. }
    apply respects_bind; [done| |intros _].
    { intros w r w'. unfold open_wb. destruct (e_open env); intros [= <- <-]; [done|].
      split_and!; unfold emit; simpl; [intros q Hq; simpl; by rewrite lookup_insert_ne|done|by apply prefix_app_r]. }
    apply respects_bind; [done|apply fs_frame_stream_to_file|intros _].
    apply respects_bind; [done|apply respects_tell; intros; apply fs_frame_emit|intros _].
    by apply respects_ret.
  - unfold download_file_except. fold p.
    apply respects_bind; [done|apply respects_tell; intros; apply fs_frame_emit|intros _].
    apply respects_bind; [done| |intros ex].
    { intros w r w' [= <- <-]. done. }
    apply respects_bind; [done| |intros _; by apply respects_ret].
    apply respects_if; [|by apply respects_ret].
    intros w r w'. unfold unlink. destruct (files w !! p); intros [= <- <-]; [|done].
    split_and!; unfold emit; simpl; [intros q Hq; simpl; by rewrite lookup_delete_ne|done|by apply prefix_app_r].
Qed.


(** X3.  Whatever happens to a transfer, and whether [download_file]
    returns or raises, it changes no file but the one at its destination
    path, removes no directory, and only adds to the log. *)
Theorem download_file_frame config file_info task_id env w r w' :
  download_file config file_info task_id env w = (r, w') →
  untouched (output_path_of config file_info) w w'
  ∧ dirs w ⊆ dirs w'
  ∧ log w `prefix_of` log w'.
Proof. apply respects_download_file. Qed.

Lemma download_file_frame_witness :
  let name := "a-6h-oper-fc.grib2" in
  let w := world_with_file "a-0h-oper-fc.grib2" in
  let w' := (download_file sample_config (sample_file name) 0 env_interrupted w).2 in
  untouched (output_path_of sample_config (sample_file name)) w w'
  ∧ dirs w ⊆ dirs w'
  ∧ log w `prefix_of` log w'.
Proof.
  intros name w w'.
  apply (download_file_frame sample_config (sample_file name) 0 env_interrupted w
           (download_file sample_config (sample_file name) 0 env_interrupted w).1).
  apply surjective_pairing.
Defined.

(** ** Transfer of one file: progress reports *)

Lemma adds_only_one (P : event → bool) ev w w' :
  log w' = (log w ++ [ev])%list → P ev = true → adds_only P w w'.
Proof. intros Hlog H. exists [ev]. simpl. by rewrite H. Qed.

Lemma adds_only_stream_to_file P body target task_id total :
  P (FileWrite target 0) = true →
  (∀ n, P (FileWrite target n) = P (FileWrite target 0)) →
  total ≤ 0 →
  ∀ downloaded, respects (adds_only P)
                  (stream_to_file body target task_id total downloaded).
Proof.
  intros HP HPn Htotal.
  assert (PreOrder (adds_only P)) as HR by apply _.
  induction body as [|[data wr|e] rest IH]; intros downloaded; simpl.
  - by apply respects_ret.
  - apply respects_bind; [done| |intros _].
    + intros w r w'. unfold write_chunk. destruct wr; intros [= <- <-]; [done|].
      eapply adds_only_one; [done|by rewrite HPn].
    + destruct (Z.ltb_spec 0 total); [lia|].
      apply respects_bind; [done|by apply respects_ret|intros _; apply IH].
  - by apply respects_raise.
Qed.

(** X4.  Without a positive declared length there is no progress report
    at all: when the response has no [content-length] header, or one
    that reads as zero or less, [download_file] never calls
    [progress.update], whatever else happens to the transfer. *)
Theorem download_file_no_progress_without_length config file_info task_id env w r w' :
  (∀ resp total,
     e_get env = Returned resp → total_size_of resp = Returned total → total ≤ 0) →
  download_file config file_info task_id env w = (r, w') →
  adds_only (λ ev, negb (is_progress_update ev)) w w'.
Proof.
  intros Hlen. revert w r w'.
  change (respects (adds_only (λ ev, negb (is_progress_update ev)))
            (download_file config file_info task_id env)).
  set (P := λ ev, negb (is_progress_update ev)).
  set (p := output_path_of config file_info).
  assert (PreOrder (adds_only P)) as HR by apply _.
  assert (∀ ev, P ev = true → ∀ w, adds_only P w (emit ev w)) as Hemit
    by (intros ev Hev w; by apply adds_only_emit).
  unfold download_file. fold p.
  apply respects_bind; [done| |intros _].
  { intros w r w'. unfold mkdir_parents. destruct (e_mkdir env); intros [= <- <-]; [done|].
    by eapply adds_only_one. }
  apply respects_try_except; [done| |intros e].
  - unfold download_file_try. fold p.
    apply respects_bind_ret; [done|apply respects_session_get; [done|by apply Hemit]|].
    intros resp (w0 & w1 & Hget).
    assert (e_get env = Returned resp) as Hresp.
    { revert Hget. unfold session_get. unfold_M. by destruct (e_get env); intros [= -> _]. }
    apply respects_bind; [done|by apply respects_raise_for_status|intros _].
    apply respects_bind_ret; [done|by apply respects_lift|].
    intros total (w2 & w3 & Htotal).
    assert (total ≤ 0) as Hle.
    { apply (Hlen resp); [done|]. revert Htotal. unfold_M. by intros [= -> _]. }
    destruct (Z.ltb_spec 0 total); [lia|].
    apply respects_bind; [done|by apply respects_ret|intros _].
    apply respects_bind; [done| |intros _].
    { intros w r w'. unfold open_wb. destruct (e_open env); intros [= <- <-]; [done|].
      by eapply adds_only_one. }
    apply respects_bind; [done|by apply adds_only_stream_to_file|intros _].
    apply respects_bind; [done|apply respects_tell; by apply Hemit|intros _].
    by apply respects_ret.
  - unfold download_file_except. fold p.
    apply respects_bind; [done|apply respects_tell; by apply Hemit|intros _].
    apply respects_bind; [done| |intros ex].
    { intros w r w' [= <- <-]. done. }
    apply respects_bind; [done| |intros _; by apply respects_ret].
    apply respects_if; [|by apply respects_ret].
    intros w r w'. unfold unlink. destruct (files w !! p); intros [= <- <-]; [|done].
    by eapply adds_only_one.
Qed.

Lemma download_file_no_progress_without_length_witness :
  adds_only (λ ev, negb (is_progress_update ev)) empty_world
    (download_file sample_config (sample_file "a-6h-oper-fc.grib2") 0 env_no_length
       empty_world).2.
Proof.
  apply (download_file_no_progress_without_length sample_config
           (sample_file "a-6h-oper-fc.grib2") 0 env_no_length empty_world
           (download_file sample_config (sample_file "a-6h-oper-fc.grib2") 0 env_no_length
              empty_world).1).
  - intros resp total [= <-] [= <-]. lia.
  - apply surjective_pairing.
Defined.

Lemma completed_reports_app l1 l2 :
  completed_reports (l1 ++ l2) = (completed_reports l1 ++ completed_reports l2)%list.
Proof. apply omap_app. Qed.

Lemma stream_to_file_reports body target task_id total :
  0 < total →
  body_failure body = None →
  ∀ downloaded w, ∃ w' l,
    stream_to_file body target task_id total downloaded w = (Returned tt, w')
    ∧ log w' = (log w ++ l)%list
    ∧ completed_reports l
      = (λ k, downloaded + Z.of_nat (length (all_bytes (take k body))))
        <$> seq 1 (length body).
Proof.
  intros Htotal.
  induction body as [|[data [e|]|e] rest IH]; intros Hbody downloaded w; try done.
  - exists w, []. by rewrite app_nil_r.
  - simpl in Hbody. simpl stream_to_file. unfold_M. unfold write_chunk.
    destruct (Z.ltb_spec 0 total); [|lia]. simpl.
    match goal with
    | |- context [stream_to_file _ _ _ _ ?d ?w0] =>
        destruct (IH Hbody d w0) as (w' & l & -> & Hlog & Hrep)
    end.
    exists w', (FileWrite target (length data)
                :: ProgressCompleted task_id (downloaded + Z.of_nat (length data)) :: l).
    split; [done|]. split.
    { rewrite Hlog. simpl. by rewrite <- !app_assoc. }
    change (completed_reports (_ :: _ :: l))
      with ((downloaded + Z.of_nat (length data)) :: completed_reports l).
    rewrite Hrep. cbn [length seq fmap list_fmap].
    f_equal.
    { simpl. by rewrite app_nil_r. }
    rewrite <- (fmap_S_seq 1), <- list_fmap_compose. apply list_fmap_ext.
    intros i k _. simpl. rewrite length_app. lia.
Qed.

(** X5.  With a positive declared length, a transfer that goes through
    reports its progress once per chunk, and the k-th report is the
    number of bytes of the first k chunks: the running size of the file,
    not a fraction of the declared length. *)
Theorem download_file_reports_running_size config file_info task_id env w resp total :
  e_get env = Returned resp →
  transfer_succeeds env = true →
  total_size_of resp = Returned total →
  0 < total →
  ∃ w' l, download_file config file_info task_id env w = (Returned true, w')
          ∧ log w' = (log w ++ l)%list
          ∧ completed_reports l
            = (λ k, Z.of_nat (length (all_bytes (take k (r_body resp)))))
              <$> seq 1 (length (r_body resp)).
Proof.
  intros Hget Hok Htotal Hpos. unfold transfer_succeeds in Hok. rewrite Hget in Hok.
  destruct (e_mkdir env) eqn:Hmk; [done|].
  destruct (Z.ltb_spec (r_status resp) 400) as [Hstatus|]; [|done].
  rewrite Htotal in Hok.
  destruct (e_open env) eqn:Hopen; [done|].
  destruct (body_failure (r_body resp)) eqn:Hbody; [done|].
  unfold download_file, mkdir_parents, try_except, download_file_try, session_get,
    raise_for_status, open_wb. unfold_M.
  rewrite Hmk, Hget, Htotal, Hopen. simpl.
  destruct (Z.leb_spec 400 (r_status resp)); [lia|].
  destruct (Z.ltb_spec 0 total); [|lia]. simpl.
  match goal with
  | |- context [stream_to_file ?b ?t ?i ?tot ?d ?w0] =>
      destruct (stream_to_file_reports b t i tot Hpos Hbody d w0)
        as (w1 & l & -> & Hlog & Hrep)
  end.
  simpl. eexists _, _. split; [done|]. split.
  { simpl. rewrite Hlog. simpl. rewrite <- !app_assoc. simpl. done. }
  change (completed_reports (_ :: _ :: _ :: _ :: ?l')) with (completed_reports l').
  rewrite completed_reports_app. simpl. rewrite app_nil_r, Hrep. apply list_fmap_ext. intros; simpl; lia.
Qed.

Lemma download_file_reports_running_size_witness :
  ∃ w' l, download_file sample_config (sample_file "a-6h-oper-fc.grib2") 0 env_two_chunks
            empty_world = (Returned true, w')
          ∧ log w' = (log empty_world ++ l)%list
          ∧ completed_reports l = [1; 2].
Proof.
  apply (download_file_reports_running_size sample_config
           (sample_file "a-6h-oper-fc.grib2") 0 env_two_chunks empty_world
           {| r_status := 200; r_content_length := Some "2";
              r_body := [Chunk [Byte.x47] None; Chunk [Byte.x52] None] |} 2);
    reflexivity.
Defined.


(** ** Batches: a limit of zero, liveness *)

(** X8.  A limit of zero blocks the batch for good: when the limit that
    [max_concurrent or ...] yields is zero and there is at least one
    record, the semaphore starts without a permit, no task can ever
    enter the block, and no schedule at all lets [download_files] return
    or raise. *)
Theorem download_files_zero_limit_never_returns
    config records max_concurrent envs sched w :
  records ≠ [] →
  effective_limit config max_concurrent = 0 →
  download_files config records max_concurrent envs sched w = None.
Proof.
  intros Hne Hzero. unfold download_files.
  destruct records as [|f l]; [done|]. rewrite Hzero. simpl.
  destruct sched as [|ev rest]; [done|]. simpl run.
  assert (step config (f :: l) envs ev (batch_init 0 (f :: l) w) = None) as ->; [|done].
  destruct ev as [i|i]; simpl.
  - destruct i as [|i]; simpl; [done|].
    change (map (λ _, Pending) l) with ((λ _ : FileInfo, Pending) <$> l).
    rewrite list_lookup_fmap. by destruct (l !! i).
  - destruct i as [|i]; simpl; [done|].
    change (map (λ _, Pending) l) with ((λ _ : FileInfo, Pending) <$> l).
    rewrite list_lookup_fmap. by destruct (l !! i).
Qed.

Lemma download_files_zero_limit_never_returns_witness :
  download_files zero_limit_config sample_files (Some 0) sample_envs
    [Acquire 0; Complete 0]%nat empty_world = None.
Proof.
  apply (download_files_zero_limit_never_returns zero_limit_config sample_files (Some 0)
           sample_envs [Acquire 0; Complete 0]%nat empty_world); [done|reflexivity].
Defined.

Lemma run_app config records envs sched1 sched2 b b1 :
  run config records envs sched1 b = Some b1 →
  run config records envs (sched1 ++ sched2) b = run config records envs sched2 b1.
Proof.
  revert b. induction sched1 as [|ev sched1 IH]; intros b; simpl.
  - by intros [= ->].
  - destruct (step config records envs ev b); [apply IH|done].
Qed.

Lemma run_to_the_end config records envs n : ∀ k b,
  1 ≤ n →
  batch_inv records envs n b →
  remaining b = k →
  ∃ sched b', run config records envs sched b = Some b' ∧ all_done b' = true.
Proof.
  induction k as [|k IH]; intros b Hn Hinv Hk.
  - exists [], b. split; [done|]. by apply remaining_all_done.
  - destruct (all_done b) eqn:Hdone.
    { apply remaining_all_done in Hdone. lia. }
    destruct (no_deadlock config records envs n b Hn Hinv Hdone) as (ev & b1 & Hstep).
    pose proof (step_remaining _ _ _ _ _ _ Hstep) as Hrem.
    destruct (IH b1 Hn) as (sched & b' & Hrun & Hall); [by eapply step_inv|lia|].
    exists (ev :: sched), b'. simpl. by rewrite Hstep.
Qed.

(** X9.  With a limit of at least one, a batch cannot get stuck: whatever
    steps have been taken so far, and however the transfers that ran
    ended, the execution can be continued to one on which
    [download_files] returns. *)
Theorem download_files_never_stuck config records max_concurrent envs sched w b :
  1 ≤ effective_limit config max_concurrent →
  run config records envs sched
    (batch_init (effective_limit config max_concurrent) records w) = Some b →
  ∃ rest r w',
    download_files config records max_concurrent envs (sched ++ rest)%list w
    = Some (Returned r, w').
Proof.
  intros Hn Hrun.
  destruct records as [|f l].
  { exists [], {| success := 0; failed := 0 |}, w.
    by destruct sched as [|[i|i] sched]. }
  assert (batch_inv (f :: l) envs (effective_limit config max_concurrent) b) as Hinv.
  { eapply run_inv; [|done]. apply batch_init_inv. lia. }
  destruct (run_to_the_end config (f :: l) envs _ _ b Hn Hinv eq_refl)
    as (rest & b' & Hrest & Hdone).
  exists rest. unfold download_files.
  destruct (Z.ltb_spec (effective_limit config max_concurrent) 0); [lia|].
  rewrite (run_app _ _ _ _ _ _ _ Hrun), Hrest, Hdone. eauto.
Qed.

Lemma download_files_never_stuck_witness :
  ∃ rest r w',
    download_files sample_config sample_files (Some 2) sample_envs_raising
      ([Acquire 2%nat; Acquire 1%nat; Complete 1%nat] ++ rest)%list empty_world
    = Some (Returned r, w').
Proof.
  apply (download_files_never_stuck sample_config sample_files (Some 2)
           sample_envs_raising [Acquire 2; Acquire 1; Complete 1]%nat empty_world
           (default (batch_init 2 sample_files empty_world)
              (run sample_config sample_files sample_envs_raising
                 [Acquire 2; Acquire 1; Complete 1]%nat
                 (batch_init 2 sample_files empty_world)))).
  - by vm_compute.
  - vm_compute. reflexivity.
Defined.

(** ** Listings: what a fetch does to the world *)

(** X11.  A listing is read-only and costs at most one request:
    whatever the transport does, and whether [list_available_files]
    returns or raises, no file or directory changes and no file system
    action is logged; the listing address is requested exactly once when
    the date is accepted and not at all when it is rejected. *)
Theorem list_available_files_read_only config a transport w r w' :
  list_available_files config a transport w = (r, w') →
  same_fs w w'
  ∧ ∃ l, log w' = (log w ++ l)%list
         ∧ forallb (λ ev, negb (is_fs_action ev)) l = true
         ∧ http_gets l
           = if validate_date_format (a_date a) then [listing_url config a] else [].
Proof.
  unfold list_available_files, try_except, session_get, raise_for_status. unfold_M.
  destruct (validate_date_format (a_date a)); simpl.
  2:{ intros [= <- <-]. split; [done|]. exists []. by rewrite app_nil_r. }
  destruct transport as [[status text]|e]; simpl.
  - destruct (status =? 404); simpl.
    { intros [= <- <-]. split; [done|]. eexists. split; [simpl; by rewrite <- app_assoc|done]. }
    destruct (400 <=? status); simpl.
    { intros [= <- <-]. split; [done|]. eexists. split; [simpl; by rewrite <- app_assoc|done]. }
    destruct text as [content|e]; simpl.
    + destruct (_parse_data_files (base_url config) content a) as [records|e]; simpl.
      * intros [= <- <-]. split; [done|]. eexists. split; [done|done].
      * destruct (is_ClientError e); intros [= <- <-]; (split; [done|]); eexists;
          (split; [simpl; by rewrite <- ?app_assoc|done]).
    + destruct (is_ClientError e); intros [= <- <-]; (split; [done|]); eexists;
        (split; [simpl; by rewrite <- ?app_assoc|done]).
  - destruct (is_ClientError e); intros [= <- <-]; (split; [done|]); eexists;
      (split; [simpl; by rewrite <- ?app_assoc|done]).
Qed.

Lemma list_available_files_read_only_witness :
  let run := list_available_files sample_config sample_address
               (Returned {| l_status := 200;
                            l_text := Returned (page_with_entry "a.grib2" "a.grib2") |})
               (world_with_file "a-0h-oper-fc.grib2") in
  same_fs (world_with_file "a-0h-oper-fc.grib2") run.2
  ∧ ∃ l, log run.2 = (log (world_with_file "a-0h-oper-fc.grib2") ++ l)%list
         ∧ forallb (λ ev, negb (is_fs_action ev)) l = true
         ∧ http_gets l = [listing_url sample_config sample_address].
Proof.
  intros run.
  apply (list_available_files_read_only sample_config sample_address
           (Returned {| l_status := 200;
                        l_text := Returned (page_with_entry "a.grib2" "a.grib2") |})
           (world_with_file "a-0h-oper-fc.grib2") run.1 run.2).
  apply surjective_pairing.
Defined.


(** ** The parser: what a match and a record look like *)

Lemma span_spec p s : ∀ a b,
  PyStr.span p s = (a, b) → s = a +:+ b ∧ forallb p (list_ascii_of_string a) = true.
Proof.
  induction s as [|c s IH]; intros a b H; simpl in H.
  - by simplify_eq.
  - destruct (p c) eqn:Hc.
    + destruct (PyStr.span p s) as [a' b']. simplify_eq.
      destruct (IH _ _ eq_refl) as [-> Ha]. simpl. by rewrite Hc, Ha.
    + by simplify_eq.
Qed.

Lemma many1_spec p s a b :
  many1 p s = Some (a, b) →
  s = a +:+ b ∧ a ≠ EmptyString ∧ forallb p (list_ascii_of_string a) = true.
Proof.
  unfold many1. destruct (PyStr.span p s) as [a' b'] eqn:Hspan.
  destruct (String.eqb_spec a' EmptyString); [done|]. intros [= <- <-].
  by destruct (span_spec _ _ _ _ Hspan).
Qed.

Lemma match_file_at_shape s m rest :
  match_file_at s = Some (m, rest) → match_shape m.
Proof.
  unfold match_file_at. intros H.
  destruct (lit_ci _ s) as [s1|]; simpl in H; [|done].
  destruct (PyStr.span _ s1) as [href s2].
  destruct (lit_ci dq s2) as [s3|]; simpl in H; [|done].
  destruct (href_admitted href) eqn:Hhref; simpl in H; [|done].
  destruct (PyStr.span _ s3) as [skipped s4].
  destruct (lit_ci ">" s4) as [s5|]; simpl in H; [|done].
  destruct (many1 _ s5) as [[filename s6]|] eqn:Hname; simpl in H; [|done].
  destruct (lit_ci "</a>" s6) as [s7|]; simpl in H; [|done].
  destruct (many1 _ s7) as [[sp1 s8]|]; simpl in H; [|done].
  destruct (match_date_time s8) as [[date_time s9]|]; simpl in H; [|done].
  destruct (many1 _ s9) as [[sp2 s10]|]; simpl in H; [|done].
  destruct (many1 _ s10) as [[size s11]|] eqn:Hsize; simpl in H; [|done].
  destruct (many1 _ s11) as [[sp3 s12]|]; simpl in H; [|done].
  destruct (many1 _ s12) as [[file_id s13]|]; simpl in H; [|done].
  simplify_eq. unfold match_shape. simpl.
  apply many1_spec in Hname as (_ & Hname & _).
  apply many1_spec in Hsize as (_ & Hsize & Hdigits).
  done.
Qed.

Lemma findall_from_shape s : ∀ skip, Forall match_shape (findall_from skip s).
Proof.
  induction s as [|c s IH]; intros skip; simpl; [done|].
  destruct skip; [|apply IH].
  destruct (match_file_at (String c s)) as [[m rest]|] eqn:Hm; [|apply IH].
  constructor; [by eapply match_file_at_shape|apply IH].
Qed.

Lemma int_of_digits_nonneg s : 0 ≤ PyStr.int_of_digits s.
Proof.
  unfold PyStr.int_of_digits.
  assert (∀ l acc, 0 ≤ acc → 0 ≤ fold_left (λ acc c, 10 * acc + PyStr.digit_value c) l acc)
    as H; [|by apply H].
  induction l as [|c l IH]; intros acc Hacc; simpl; [done|].
  apply IH. unfold PyStr.digit_value. destruct (Ascii.is_nat c); lia.
Qed.

Lemma round_to_double_bound n k :
  53 ≤ k → 0 ≤ n < 2 ^ k → round_to_double n ≤ 2 ^ k.
Proof.
  intros Hk [H0 Hn]. unfold round_to_double.
  destruct (Z.leb_spec (Z.log2 n + 1) 53) as [|Hbits]; [lia|].
  assert (0 < n) as Hpos.
  { destruct (Z.eq_dec n 0) as [->|]; [simpl in Hbits; lia|lia]. }
  set (sh := Z.log2 n + 1 - 53).
  assert (0 < sh) as Hsh by (unfold sh; lia).
  assert (Z.log2 n < k) as Hlog by (apply Z.log2_lt_pow2; lia).
  assert (n < 2 ^ (Z.log2 n + 1)) as Hup.
  { replace (Z.log2 n + 1) with (Z.succ (Z.log2 n)) by lia.
    apply Z.log2_spec. lia. }
  assert (2 ^ (Z.log2 n + 1) = 2 ^ 53 * 2 ^ sh) as Hsplit.
  { rewrite <- Z.pow_add_r by lia. f_equal. unfold sh. lia. }
  assert (0 < 2 ^ sh) as Hpow by (apply Z.pow_pos_nonneg; lia).
  assert (n / 2 ^ sh < 2 ^ 53) as Hq.
  { apply Z.div_lt_upper_bound; [done|]. rewrite Z.mul_comm. lia. }
  assert (round_half_even_div n (2 ^ sh) ≤ n / 2 ^ sh + 1) as Hr.
  { unfold round_half_even_div.
    repeat match goal with |- context [if ?c then _ else _] => destruct c end; lia. }
  assert (2 ^ (Z.log2 n + 1) ≤ 2 ^ k) as Hmono by (apply Z.pow_le_mono_r; lia).
  nia.
Qed.

Lemma format_units_float units : ∀ q, ∃ s, format_units units (PyFloat q) = Returned s.
Proof.
  induction units as [|unit rest IH]; intros q; simpl; [eauto|].
  destruct (_ <? _); [eauto|apply IH].
Qed.

Lemma format_units_cons unit rest x :
  format_units (unit :: rest) x
  = if num_lt_1024 x then
      match format_1f x with
      | Returned s => Returned (s +:+ " " +:+ unit)
      | Raised e => Raised e
      end
    else
      match truediv_1024 x with
      | Returned v => format_units rest v
      | Raised e => Raised e
      end.
Proof. reflexivity. Qed.

Lemma format_file_size_returns n :
  0 ≤ n < 2 ^ 1024 → ∃ s, _format_file_size n = Returned s.
Proof.
  intros [H0 Hn]. unfold _format_file_size.
  assert (round_to_double n ≤ 2 ^ 1024) as Hround by (by apply round_to_double_bound).
  assert (2 ^ 1024 < 2 ^ 1034) as Hpow by (apply Z.pow_lt_mono_r; lia).
  rewrite format_units_cons. cbn [num_lt_1024].
  destruct (Z.ltb_spec n 1024) as [Hsmall|Hbig].
  - unfold format_1f. rewrite float_of_int_exact; [eauto|].
    assert (2 ^ 10 < 2 ^ 53) by (apply Z.pow_lt_mono_r; lia).
    change (2 ^ 10) with 1024 in *. lia.
  - unfold truediv_1024. rewrite Z.abs_eq by done.
    destruct (Z.leb_spec (2 ^ 1034) (round_to_double n)); [lia|].
    apply format_units_float.
Qed.

Lemma format_units_raises units : ∀ x e,
  format_units units x = Raised e → e = OverflowError.
Proof.
  assert (∀ x e, format_1f x = Raised e → e = OverflowError) as Hf.
  { intros [n|q] e; simpl; [|done]. unfold float_of_int.
    destruct (_ <=? _); [|done]. by intros [= <-]. }
  assert (∀ x e, truediv_1024 x = Raised e → e = OverflowError) as Hd.
  { intros [n|q] e; simpl; [|done]. destruct (_ <=? _); [|done]. by intros [= <-]. }
  induction units as [|unit rest IH]; intros x e; simpl.
  - destruct (format_1f x) eqn:E; [done|]. intros [= <-]. by eapply Hf.
  - destruct (num_lt_1024 x).
    + destruct (format_1f x) eqn:E; [done|]. intros [= <-]. by eapply Hf.
    + destruct (truediv_1024 x) eqn:E; [apply IH|]. intros [= <-]. by eapply Hd.
Qed.

(** X13.  The only way [_format_file_size] can fail is a size too large
    for a floating-point number: whatever the size, it raises nothing
    but [OverflowError], and for every size from zero to below
    [2 ^ 1024] it returns a string. *)
Theorem format_file_size_raises_only_on_huge_sizes n :
  (∀ e, _format_file_size n = Raised e → e = OverflowError)
  ∧ (0 ≤ n < 2 ^ 1024 → ∃ s, _format_file_size n = Returned s).
Proof.
  split.
  - intros e. apply format_units_raises.
  - apply format_file_size_returns.
Qed.

Lemma format_file_size_raises_only_on_huge_sizes_witness :
  (∀ e, _format_file_size (2 ^ 1034) = Raised e → e = OverflowError)
  ∧ ∃ s, _format_file_size 1536 = Returned s.
Proof.
  split.
  - apply (proj1 (format_file_size_raises_only_on_huge_sizes (2 ^ 1034))).
  - apply (proj2 (format_file_size_raises_only_on_huge_sizes 1536)).
    split; [lia|].
    assert (2 ^ 11 ≤ 2 ^ 1024) by (apply Z.pow_le_mono_r; lia).
    change 1536 with (2 ^ 11 - 512).
    generalize dependent (2 ^ 1024). generalize (2 ^ 11). intros; lia.
Defined.

Lemma rstrip_idemp s : PyStr.rstrip (PyStr.rstrip s) = PyStr.rstrip s.
Proof.
  induction s as [|c s IH]; [done|]. simpl.
  destruct (PyStr.rstrip s) as [|c' r] eqn:Hr.
  - destruct (PyStr.is_space c) eqn:Hc; simpl; [done|]. by rewrite Hc.
  - cbn [PyStr.rstrip]. cbn [PyStr.rstrip] in IH. by rewrite IH.
Qed.

Lemma rstrip_head c s :
  PyStr.is_space c = false → ∃ r, PyStr.rstrip (String c s) = String c r.
Proof.
  intros Hc. simpl. destruct (PyStr.rstrip s); [|eauto]. rewrite Hc. eauto.
Qed.

Lemma lstrip_head s :
  PyStr.lstrip s = EmptyString
  ∨ ∃ c r, PyStr.lstrip s = String c r ∧ PyStr.is_space c = false.
Proof.
  induction s as [|c s IH]; simpl; [by left|].
  destruct (PyStr.is_space c) eqn:Hc; [done|]. right. eauto.
Qed.

Lemma strip_idemp s : PyStr.strip (PyStr.strip s) = PyStr.strip s.
Proof.
  unfold PyStr.strip. destruct (lstrip_head s) as [->|(c & r & -> & Hc)]; [done|].
  destruct (rstrip_head c r Hc) as [r' Hr]. rewrite Hr.
  assert (PyStr.lstrip (String c r') = String c r') as -> by (simpl; by rewrite Hc).
  by rewrite <- Hr, rstrip_idemp.
Qed.

Lemma forecast_hour_of_shape name :
  forecast_hour_of name = "unknown"
  ∨ (forecast_hour_of name ≠ EmptyString ∧ PyStr.all_digits (forecast_hour_of name) = true).
Proof.
  unfold forecast_hour_of. pose proof (search_hour_spec name) as H.
  destruct (search_hour name) as [ds|]; [|by left].
  destruct H as (pre & post & (_ & Hne & Hds) & _). by right.
Qed.

(** X14.  Whatever the page says, every record that [_parse_data_files]
    returns is well formed: its raw size is not negative, its filename
    has no white space at either end, its forecast hour is a non-empty
    run of digits or the word [unknown], its address is the listing
    address joined with an [href] that the file pattern admits, and its
    five addressing fields are those of the request. *)
Theorem parsed_records_well_formed config_base_url html a records :
  _parse_data_files config_base_url html a = Returned records →
  Forall (record_shape config_base_url a) records.
Proof.
  unfold _parse_data_files, findall_file_pattern. intros H.
  apply parse_matches_each in H.
  pose proof (findall_from_shape html 0) as Hshape.
  revert H Hshape. generalize (findall_from 0 html).
  intros matches H. induction H as [|m r matches records Hr _ IH]; [done|].
  intros Hshape. apply Forall_cons in Hshape as [(Hhref & _) Hshape].
  constructor; [|by apply IH].
  unfold file_info_of in Hr.
  destruct (_format_file_size _) as [size|e]; [|done]. simplify_eq.
  unfold record_shape. simpl.
  split_and!; try done.
  - apply int_of_digits_nonneg.
  - apply strip_idemp.
  - apply forecast_hour_of_shape.
  - eauto.
Qed.

Lemma parsed_records_well_formed_witness :
  ∃ records,
    _parse_data_files (base_url sample_config) (page_with_entry "a.grib2" " a.grib2 ")
      sample_address = Returned records
    ∧ Forall (record_shape (base_url sample_config) sample_address) records.
Proof.
  destruct (_parse_data_files (base_url sample_config)
              (page_with_entry "a.grib2" " a.grib2 ") sample_address)
    as [records|e] eqn:H; [|by vm_compute in H].
  exists records. split; [done|].
  by apply (parsed_records_well_formed (base_url sample_config)
              (page_with_entry "a.grib2" " a.grib2 ") sample_address).
Defined.
